(** * Sockethub platform adapters: IRC verb dispatch and event translation,
      XMPP incoming handlers and their session guard.

    A shallow embedding of
    - [packages/sockethub-platform-irc/index.js] (module [Irc]) and
    - [packages/sockethub-platform-xmpp/lib/incoming-handlers.js] (module [Xmpp]),
    over a small model of the JavaScript values, strings and exceptions the two
    files rely on (module [JS]). *)

From Stdlib Require Import ZArith NArith Ascii String DecimalString List Bool Lia.
From stdpp Require Import base option list gmap.

Local Open Scope string_scope.
Local Open Scope list_scope.
Local Open Scope Z_scope.
Local Set Warnings "-register-all".

(** * JavaScript values, strings and completions *)

Module JS.

(** A JavaScript string is a sequence of UTF-16 code units. *)
Definition jstring := list N.

(** Source literals are ASCII; [lit "..."] is the corresponding code-unit
    sequence. *)
Definition lit (s : string) : jstring :=
  map N_of_ascii (list_ascii_of_string s).

Definition jstring_eqb (a b : jstring) : bool := bool_decide (a = b).

(** The values an event payload, a stanza attribute or a message can hold.
    Numbers are kept to the integers and NaN: the code only inspects their
    [typeof] and their truthiness. *)
Inductive jsval :=
| JUndef
| JNull
| JBool (b : bool)
| JNum (z : Z)
| JNaN
| JStr (s : jstring)
| JArr (items : list jsval)
| JObj (fields : list (jstring * jsval)).

Inductive jstype :=
| TUndefined | TObject | TBoolean | TNumber | TString | TFunction.

#[global] Instance jstype_eq_dec : EqDecision jstype.
Proof. solve_decision. Defined.

(** [typeof v] *)
Definition typeof (v : jsval) : jstype :=
  match v with
  | JUndef => TUndefined
  | JNull => TObject
  | JBool _ => TBoolean
  | JNum _ | JNaN => TNumber
  | JStr _ => TString
  | JArr _ | JObj _ => TObject
  end.

Definition typeof_is (v : jsval) (t : jstype) : bool :=
  bool_decide (typeof v = t).

(** ToBoolean: [undefined], [null], [false], [0], [NaN] and [""] are falsy. *)
Definition truthy (v : jsval) : bool :=
  match v with
  | JUndef | JNull | JNaN => false
  | JBool b => b
  | JNum z => negb (z =? 0)
  | JStr s => negb (bool_decide (s = []))
  | JArr _ | JObj _ => true
  end.

(** [v === 'literal'] for a string literal. *)
Definition strict_eq_str (v : jsval) (s : jstring) : bool :=
  match v with
  | JStr s' => jstring_eqb s' s
  | _ => false
  end.

(** Exceptions the two files can raise. *)
Inductive exn :=
| ReferenceError (name : jstring)
| TypeError (what : jstring)
| Error (message : jstring).

(** The completion of a statement or an expression: a value, or an abrupt
    completion with a thrown exception. *)
Inductive completion (A : Type) :=
| Normal (a : A)
| Throw (e : exn).
Arguments Normal {A} a.
Arguments Throw {A} e.

Definition is_normal {A} (c : completion A) : bool :=
  match c with Normal _ => true | Throw _ => false end.

(** ** Free identifiers and property reads

    An identifier that neither an enclosing function nor a module-level
    declaration binds is looked up on the global object; a ReferenceError is
    thrown when the global object has no such property. Only the data
    properties of the global object are listed: the function-valued ones
    ([require], [console], [JSON], [parseInt]) are always called, never read
    as data. *)
Definition global_object : list (jstring * jsval) :=
  [ (lit "undefined", JUndef); (lit "NaN", JNaN) ].

Fixpoint assoc (k : jstring) (l : list (jstring * jsval)) : option jsval :=
  match l with
  | [] => None
  | (k', v) :: rest => if jstring_eqb k' k then Some v else assoc k rest
  end.

Definition free_identifier (x : jstring) : completion jsval :=
  match assoc x global_object with
  | Some v => Normal v
  | None => Throw (ReferenceError x)
  end.

(** [v.k] or [v[k]] for a data property [k]: reading a property of
    [undefined] or [null] throws a TypeError; an absent property is
    [undefined]. *)
Definition get_prop (v : jsval) (k : jstring) : completion jsval :=
  match v with
  | JUndef | JNull =>
      Throw (TypeError (lit "Cannot read property of undefined"))
  | JObj fields => Normal (default JUndef (assoc k fields))
  | _ => Normal JUndef
  end.

(** The method call [recv.m()] on a plain datum: no datum carries a callable
    property, so the call throws once the property has been read. *)
Definition call_method (recv : jsval) (m : jstring) : completion unit :=
  match get_prop recv m with
  | Normal _ => Throw (TypeError (m ++ lit " is not a function"))
  | Throw e => Throw e
  end.

(** ** String.prototype.indexOf and Array.prototype.indexOf *)

Fixpoint is_prefix (p s : jstring) : bool :=
  match p, s with
  | [], _ => true
  | _ :: _, [] => false
  | a :: p', b :: s' => (a =? b)%N && is_prefix p' s'
  end.

Fixpoint index_from (needle hay : jstring) (i : Z) : Z :=
  if is_prefix needle hay then i
  else match hay with
       | [] => -1
       | _ :: rest => index_from needle rest (i + 1)
       end.

(** [hay.indexOf(needle)] on strings: position of the first occurrence, or -1. *)
Definition str_indexOf (hay needle : jstring) : Z := index_from needle hay 0.

(** [l.indexOf(x)] on an array of strings. *)
Fixpoint list_index_from (x : jstring) (l : list jstring) (i : Z) : Z :=
  match l with
  | [] => -1
  | y :: rest => if jstring_eqb y x then i else list_index_from x rest (i + 1)
  end.

Definition arr_indexOf (l : list jstring) (x : jstring) : Z :=
  list_index_from x l 0.

(** [l.indexOf(x)] on an array of arbitrary values, for a string [x]: strict
    equality only holds with string elements. *)
Fixpoint val_index_from (x : jstring) (l : list jsval) (i : Z) : Z :=
  match l with
  | [] => -1
  | v :: rest => if strict_eq_str v x then i else val_index_from x rest (i + 1)
  end.

(** The method call [recv.indexOf(needle)] on a value of unknown type:
    strings and arrays have the method; reading a property of [undefined] or
    [null] throws; any other plain datum has no [indexOf] to call. *)
Definition call_indexOf (recv : jsval) (needle : jstring) : completion Z :=
  match recv with
  | JStr s => Normal (str_indexOf s needle)
  | JArr l => Normal (val_index_from needle l 0)
  | JUndef | JNull =>
      Throw (TypeError (lit "Cannot read property 'indexOf' of undefined"))
  | _ => Throw (TypeError (lit "indexOf is not a function"))
  end.

(** ** [s.replace(/^\s+|\s+$/g, "")] *)

(** The code units matched by [\s]: WhiteSpace and LineTerminator of
    ECMAScript. *)
Definition is_ws (c : N) : bool :=
  ((c =? 9) || (c =? 10) || (c =? 11) || (c =? 12) || (c =? 13) || (c =? 32)
   || (c =? 160) || (c =? 5760) || ((8192 <=? c) && (c <=? 8202))
   || (c =? 8232) || (c =? 8233) || (c =? 8239) || (c =? 8287)
   || (c =? 12288) || (c =? 65279))%N.

(** First alternative, [^\s+]: only at position 0, greedy. *)
Fixpoint drop_leading (s : jstring) : jstring :=
  match s with
  | c :: rest => if is_ws c then drop_leading rest else s
  | [] => []
  end.

(** Second alternative, [\s+$]: the leftmost position from which the rest of
    the string is white space up to its end. *)
Fixpoint drop_trailing (s : jstring) : jstring :=
  match s with
  | [] => []
  | c :: rest => if forallb is_ws s then [] else c :: drop_trailing rest
  end.

Definition replace_trim (s : jstring) : jstring :=
  drop_trailing (drop_leading s).

Definition all_ws (s : jstring) : Prop := forallb is_ws s = true.

(** [t] is [s] without its leading and trailing white space. *)
Definition trimmed_of (s t : jstring) : Prop :=
  exists pre post,
    s = pre ++ t ++ post /\ all_ws pre /\ all_ws post /\
    (forall c, head t = Some c -> is_ws c = false) /\
    (forall c, last t = Some c -> is_ws c = false).

(** The room-identifier shape: the first code unit is ['#'] (35). *)
Definition starts_with_hash (s : jstring) : bool :=
  match s with
  | c :: _ => (c =? 35)%N
  | [] => false
  end.

(** String concatenation [a + b]. *)
Definition concat (a b : jstring) : jstring := a ++ b.

(** ['' + v] for an attribute that is a string or absent. *)
Definition to_str (o : option jstring) : jstring :=
  match o with
  | Some s => s
  | None => lit "undefined"
  end.

Definition of_opt (o : option jstring) : jsval :=
  match o with
  | Some s => JStr s
  | None => JUndef
  end.

(** ToString of a plain datum, as string concatenation applies it. An
    integer prints with all its digits; this is what JavaScript prints for a
    magnitude below 10^21, the integers the model is meant for (beyond, a
    number prints in exponent form). *)
Definition show_Z (z : Z) : jstring :=
  lit (DecimalString.NilZero.string_of_int (Z.to_int z)).

Fixpoint show (v : jsval) : jstring :=
  match v with
  | JUndef => lit "undefined"
  | JNull => lit "null"
  | JBool true => lit "true"
  | JBool false => lit "false"
  | JNum z => show_Z z
  | JNaN => lit "NaN"
  | JStr s => s
  | JArr items =>
      (* Array.prototype.join: null and undefined items print as nothing *)
      (fix join (l : list jsval) : jstring :=
         match l with
         | [] => []
         | x :: rest =>
             match x with JUndef | JNull => [] | _ => show x end
             ++ match rest with [] => [] | _ => lit "," ++ join rest end
         end) items
  | JObj _ => lit "[object Object]"
  end.

(** An object literal with ASCII property names. *)
Definition obj (fields : list (string * jsval)) : jsval :=
  JObj (map (fun kv => (lit (fst kv), snd kv)) fields).

Definition str (s : string) : jsval := JStr (lit s).

(** ** Code that calls out and may throw

    A run of such code is the sequence of calls it made on its collaborator,
    followed by its completion. *)
Definition Tr (E A : Type) : Type := list E * completion A.

#[global] Instance Tr_ret {E} : MRet (Tr E) := fun A a => ([], Normal a).
#[global] Instance Tr_bind {E} : MBind (Tr E) := fun A B f m =>
  match m with
  | (t, Normal a) => let '(t', r) := f a in (t ++ t', r)
  | (t, Throw e) => (t, Throw e)
  end.

Definition tell {E} (e : E) : Tr E unit := ([e], Normal tt).

Definition eval {E A} (c : completion A) : Tr E A := ([], c).

(** [try { body } catch (e) { handler }] *)
Definition try_catch {E} (body : Tr E unit) (handler : exn -> Tr E unit)
    : Tr E unit :=
  match body with
  | (t, Throw e) => let '(t', r) := handler e in (t ++ t', r)
  | (t, Normal a) => (t, Normal a)
  end.

(** [a && b] where evaluating [b] may throw. *)
Definition and_then {E} (a : bool) (b : Tr E bool) : Tr E bool :=
  if a then b else mret false.

End JS.

(** * The IRC platform: [sockethub-platform-irc/index.js] *)

Module Irc.
Import JS.

(** ** Jobs, credentials and pooled connections *)

(** [job.actor], [job.target] and [job.object] of an activity-streams job.
    Jobs reach the platform schema-validated, so the fields the verbs read
    are strings; a field a verb does not carry holds the empty string. *)
Record actor_t := { id : jstring; displayName : jstring }.
Record target_t := { target_displayName : jstring }.
Record object_t := { objectType : jstring; content : jstring; topic : jstring }.
Record job := { actor : actor_t; target : target_t; object : object_t }.

(** The credentials object of the schema: [actor] and [object] parts. *)
Record cred_actor := {
  cred_id : jstring;
  cred_displayName : jstring;
  cred_name : option jstring
}.
Record cred_object := {
  cred_objectType : jstring;
  nick : jstring;
  server : jstring;
  password : option jstring;
  port : option Z;
  secure : option bool
}.
Record credentials := { cred_actor_of : cred_actor; cred_object_of : cred_object }.

#[global] Instance cred_actor_eq_dec : EqDecision cred_actor.
Proof. solve_decision. Defined.
#[global] Instance cred_object_eq_dec : EqDecision cred_object.
Proof. solve_decision. Defined.
#[global] Instance credentials_eq_dec : EqDecision credentials.
Proof. solve_decision. Defined.

(** The client object a verb receives from the connection manager:
    [client.key], [client.credentials] and the live backend handle behind
    [client.connection]. *)
Record client := { key : jstring; client_credentials : credentials; connection : nat }.

(** What the completion callback or a promise rejection can carry. *)
Inductive connect_error := ConnectTimeout | ConnectFailed.

Inductive errval :=
| EValue (v : jsval)           (* a plain value: a message string, undefined *)
| EThrown (e : exn)            (* a caught exception *)
| EConnect (e : connect_error). (* an error of the connection pool *)

(** The observable operations of the adapter, in the order they happen. *)
Inductive effect :=
| Raw (handle : nat) (cmd : list jstring)
    (* client.connection.irc.raw(cmd) *)
| SetConfig (kind k : jstring) (c : credentials)
    (* session.setConfig(kind, k, c) *)
| Move (oldKey : jstring) (oldCreds : credentials)
       (newKey : jstring) (newCreds : credentials)
    (* session.connection.move(oldKey, oldCreds, newKey, newCreds) *)
| Done (arg : option errval)
    (* done() or done(arg) *)
| Uncaught (e : exn)
    (* an exception escaping a callback of the credential store *)
| Unhandled (r : errval).
    (* a promise rejected with no rejection handler attached *)

(** What the backend answers to the next connection attempt made under an
    api key. *)
Inductive handshake :=
| Registered (handle : nat)
| NoClient
| TimedOut.

(** An entry of the connection pool, stored under its key. *)
Record entry := { entry_credentials : credentials; entry_handle : nat }.

(** The adapter instance together with the collaborators it talks to. *)
Record world := {
  _channels : list jstring;              (* this._channels *)
  store : gmap jstring credentials;      (* session.store, session.setConfig *)
  pool : gmap jstring entry;             (* session.connection *)
  backend : jstring -> handshake;        (* the IRC network behind this.api *)
  trace : list effect
}.

(** [function IRC(session)]: a fresh adapter on given collaborators. *)
Definition IRC (st : gmap jstring credentials) (pl : gmap jstring entry)
    (be : jstring -> handshake) : world :=
  {| _channels := []; store := st; pool := pl; backend := be; trace := [] |}.

(** ** Statements with effects on the world *)

Definition M (A : Type) : Type := world -> completion A * world.

#[global] Instance M_ret : MRet M := fun A a w => (Normal a, w).
#[global] Instance M_bind : MBind M := fun A B f m w =>
  match m w with
  | (Normal a, w') => f a w'
  | (Throw e, w') => (Throw e, w')
  end.

Definition lift {A} (c : completion A) : M A := fun w => (c, w).

Definition get_world : M world := fun w => (Normal w, w).

Definition emit (e : effect) : M unit := fun w =>
  (Normal tt,
   {| _channels := _channels w; store := store w; pool := pool w;
      backend := backend w; trace := trace w ++ [e] |}).

Definition set_channels (l : list jstring) : M unit := fun w =>
  (Normal tt,
   {| _channels := l; store := store w; pool := pool w;
      backend := backend w; trace := trace w |}).

Definition set_store (s : gmap jstring credentials) : M unit := fun w =>
  (Normal tt,
   {| _channels := _channels w; store := s; pool := pool w;
      backend := backend w; trace := trace w |}).

Definition set_pool (p : gmap jstring entry) : M unit := fun w =>
  (Normal tt,
   {| _channels := _channels w; store := store w; pool := p;
      backend := backend w; trace := trace w |}).

(** The job's completion callback. *)
Definition done (arg : option errval) : M unit := emit (Done arg).

(** [client.connection.irc.raw(cmd)] *)
Definition raw (c : client) (cmd : list jstring) : M unit :=
  emit (Raw (connection c) cmd).

(** ** Promises

    The state a promise has reached once every callback that was ready to
    run has run. *)
Inductive promise (A : Type) :=
| Fulfilled (a : A)
| Rejected (r : errval)
| Pending.
Arguments Fulfilled {A} a.
Arguments Rejected {A} r.
Arguments Pending {A}.

(** Running a handler settles the derived promise: fulfilled when the
    handler returns, rejected with the exception when it throws. *)
Definition settle (h : M unit) (w : world) : promise unit * world :=
  match h w with
  | (Normal _, w') => (Fulfilled tt, w')
  | (Throw e, w') => (Rejected (EThrown e), w')
  end.

(** [p.then(onFulfilled, onRejected)]; [onRejected] may be omitted. *)
Definition then_ {A} (p : promise A * world) (onFulfilled : A -> M unit)
    (onRejected : option (errval -> M unit)) : promise unit * world :=
  match p with
  | (Fulfilled a, w) => settle (onFulfilled a) w
  | (Rejected r, w) =>
      match onRejected with
      | Some h => settle (h r) w
      | None => (Rejected r, w)
      end
  | (Pending, w) => (Pending, w)
  end.

(** [p.catch(onRejected)] *)
Definition catch_ (p : promise unit * world) (onRejected : errval -> M unit)
    : promise unit * world :=
  match p with
  | (Rejected r, w) => settle (onRejected r) w
  | other => other
  end.

(** The verb returns without keeping the derived promise: a rejection it
    ends in has no handler. *)
Definition dropped (p : promise unit * world) : world :=
  match p with
  | (Rejected r, w) => snd (emit (Unhandled r) w)
  | (_, w) => w
  end.

(** ** The connection pool, [session.connection] *)

Definition client_of (k : jstring) (e : entry) : client :=
  {| key := k; client_credentials := entry_credentials e;
     connection := entry_handle e |}.

(** Modelled from the spec: the connection manager behind
    [session.connection] is not part of this package. [get] is a pure lookup
    under the identity and never creates. *)
Definition pool_get (identity : jstring) (creds : credentials)
    (p : gmap jstring entry) : option client :=
  client_of identity <$> p !! identity.

(** Modelled from the spec: [create] of the connection manager. An existing
    entry is returned unchanged; otherwise the connector runs, and a
    registered backend client is stored under the identity; a handshake that
    does not complete within the timeout fails with ConnectTimeout and leaves
    no entry. The result is the pair of arguments the completion callback of
    [create] receives. *)
Definition pool_create (identity : jstring) (creds : credentials)
    (answer : handshake) (p : gmap jstring entry)
    : (option errval * option client) * gmap jstring entry :=
  match p !! identity with
  | Some e => ((None, Some (client_of identity e)), p)
  | None =>
      match answer with
      | Registered h =>
          let e := {| entry_credentials := creds; entry_handle := h |} in
          ((None, Some (client_of identity e)), <[identity := e]> p)
      | NoClient => ((None, None), p)
      | TimedOut => ((Some (EConnect ConnectTimeout), None), p)
      end
  end.

(** Modelled from the spec: [move] of the connection manager. The old entry
    must exist with credentials equal to [oldCreds], else the call fails with
    StaleCredentials; the entry is then removed from the old key and inserted
    under the new key with the new credentials and the same handle. *)
Definition pool_move (oldKey : jstring) (oldCreds : credentials)
    (newKey : jstring) (newCreds : credentials) (p : gmap jstring entry)
    : completion (gmap jstring entry) :=
  match p !! oldKey with
  | Some e =>
      if decide (entry_credentials e = oldCreds) then
        Normal (<[newKey := {| entry_credentials := newCreds;
                               entry_handle := entry_handle e |}]>
                  (delete oldKey p))
      else Throw (Error (lit "StaleCredentials"))
  | None => Throw (Error (lit "StaleCredentials"))
  end.

(** [self.session.connection.move(...)] *)
Definition move (oldKey : jstring) (oldCreds : credentials)
    (newKey : jstring) (newCreds : credentials) : M unit :=
  _ ← emit (Move oldKey oldCreds newKey newCreds);
  w ← get_world;
  p' ← lift (pool_move oldKey oldCreds newKey newCreds (pool w));
  set_pool p'.

(** Modelled from the spec: [session.setConfig(kind, k, value)] persists the
    value in the credential store the verbs read with [session.store.get]. *)
Definition setConfig (kind k : jstring) (c : credentials) : M unit :=
  _ ← emit (SetConfig kind k c);
  w ← get_world;
  set_store (<[k := c]> (store w)).

(** ** Membership: [_isJoined], [_joined], [_left] *)

(** [this._channels.indexOf(v)] for a value [v] of unknown type. *)
Definition channels_indexOf (l : list jstring) (v : jsval) : Z :=
  match v with
  | JStr s => arr_indexOf l s
  | _ => -1
  end.

Definition _isJoined (channel : jstring) : M bool :=
  w ← get_world;
  if str_indexOf channel (lit "#") =? 0 then
    (* valid channel name *)
    if arr_indexOf (_channels w) channel >=? 0 then mret true
    else mret false
  else
    (* usernames are always OK to send to *)
    mret true.

(** [job.target.displayName] inside [_joined] and [_left]: neither function
    has a parameter or a local named [job], and the module declares none. *)
Definition free_job_target_displayName : M jsval :=
  j ← lift (free_identifier (lit "job"));
  t ← lift (get_prop j (lit "target"));
  lift (get_prop t (lit "displayName")).

Definition _joined (channel : jstring) : M unit :=
  (* keep track of channels joined *)
  n ← free_job_target_displayName;
  w ← get_world;
  if channels_indexOf (_channels w) n <? 0
  then set_channels (_channels w ++ [channel])
  else mret tt.

Definition _left (channel : jstring) : M unit :=
  (* keep track of channels left *)
  n ← free_job_target_displayName;
  w ← get_world;
  let index := channels_indexOf (_channels w) n in
  if index >=? 0
  then set_channels (delete (Z.to_nat index) (_channels w))
  else mret tt.

(** The methods of [IRC.prototype] that take a channel name; the verbs, which
    take a job and a callback, are dispatched apart (see [dispatch]).
    [call_self m channel] is the call [self.m(channel)] for a name [m] that
    is one of these methods, or that is no property of the adapter at all,
    as is the case of [_leave]: calling what is not there throws. *)
Definition prototype_method (m : jstring) : option (jstring -> M unit) :=
  if jstring_eqb m (lit "_isJoined") then Some (fun ch => _ ← _isJoined ch; mret tt)
  else if jstring_eqb m (lit "_joined") then Some _joined
  else if jstring_eqb m (lit "_left") then Some _left
  else None.

Definition call_self (m : jstring) (channel : jstring) : M unit :=
  match prototype_method m with
  | Some f => f channel
  | None => lift (Throw (TypeError (concat (lit "self.") (concat m (lit " is not a function")))))
  end.

(** ** Resolving the live connection: [_createClient], [_getClient] *)

(** [_createClient(key, creds)]: the pool entry is created under
    [creds.actor.id]; the backend is contacted under the api key [key]. The
    listeners handed to the pool are modelled apart (see [listener]). *)
Definition _createClient (k : jstring) (creds : credentials)
    : world -> promise client * world := fun w =>
  let '((err, cl), p') :=
    pool_create (cred_id (cred_actor_of creds)) creds (backend w k) (pool w) in
  let w' := snd (set_pool p' w) in
  match err, cl with
  | Some e, _ => (Rejected e, w')
  | None, None => (Rejected (EValue (JStr (lit "didnt receive a client object."))), w')
  | None, Some c => (Fulfilled c, w')
  end.

(** [_getClient(job, create)]; [create] defaults to true when it is not a
    boolean. The callback of [session.store.get] runs once the store has
    answered; an exception escaping it leaves [pending] unsettled. *)
Definition _getClient (j : job) (create : option bool)
    : world -> promise client * world := fun w =>
  let create := default true create in
  match store w !! id (actor j) with
  | None =>
      (* if (err) { return promise.reject(err); } : [promise] is not bound *)
      match free_identifier (lit "promise") with
      | Throw e => (Pending, snd (emit (Uncaught e) w))
      | Normal v =>
          (Pending,
           snd (emit (Uncaught (TypeError (lit "promise.reject is not a function"))) w))
      end
  | Some creds =>
      (* check if client object already exists *)
      match pool_get (id (actor j)) creds (pool w) with
      | None =>
          if create then
            (* create a client *)
            _createClient (id (actor j)) creds w
          else
            (* no existing client and do not create a new one *)
            (Rejected (EValue JUndef), w)
      | Some c =>
          (* client already exists *)
          (Fulfilled c, w)
      end
  end.

(** ** The verbs *)

(** [done] used as a rejection handler: [done(reason)]. *)
Definition done_with (r : errval) : M unit := done (Some r).

(** Fulfilment handler of [join]. Its first statement reads [err], which is
    bound neither by the handler ([client]), nor by [join] ([job], [done],
    [self], [pending]), nor by the module. *)
Definition join_fulfilled (j : job) (c : client) : M unit :=
  err ← lift (free_identifier (lit "err"));
  if truthy (err : jsval) then done (Some (EValue err))
  else
    (* join channel *)
    _ ← raw c [lit "JOIN"; target_displayName (target j)];
    _ ← call_self (lit "_joined") (target_displayName (target j));
    done None.

Definition join (j : job) (w : world) : world :=
  dropped (then_ (_getClient j None w) (join_fulfilled j) (Some done_with)).

Definition leave_fulfilled (j : job) (c : client) : M unit :=
  (* leave channel *)
  _ ← raw c [lit "PART"; target_displayName (target j)];
  _ ← call_self (lit "_leave") (target_displayName (target j));
  done None.

Definition leave (j : job) (w : world) : world :=
  dropped (then_ (_getClient j None w) (leave_fulfilled j) (Some done_with)).

Definition not_joined_message : jstring :=
  lit "cannot send message to a channel of which you've not first `join`ed.".

Definition send_fulfilled (j : job) (c : client) : M unit :=
  joined ← _isJoined (target_displayName (target j));
  if (joined : bool) then
    let msg := replace_trim (content (object j)) in
    _ ← raw c [lit "PRIVMSG"; target_displayName (target j); concat (lit "") msg];
    done None
  else
    done (Some (EValue (JStr not_joined_message))).

Definition send (j : job) (w : world) : world :=
  dropped (catch_ (then_ (_getClient j None w) (send_fulfilled j) None) done_with).

(** [a || b || ''] on a string and an optional string. *)
Definition first_truthy (a : jstring) (b : option jstring) : jstring :=
  if truthy (JStr a) then a
  else match b with
       | Some s => if truthy (JStr s) then s else lit ""
       | None => lit ""
       end.

(** The credentials [update] stores after a nick change: a copy of the
    client's credentials with [object.nick], [actor.displayName] and
    [actor.name] set from the target's display name. *)
Definition renamed (creds : credentials) (newNick : jstring) : credentials :=
  {| cred_actor_of :=
       {| cred_id := cred_id (cred_actor_of creds);
          cred_displayName := newNick;
          cred_name := Some (first_truthy newNick (cred_name (cred_actor_of creds))) |};
     cred_object_of :=
       {| cred_objectType := cred_objectType (cred_object_of creds);
          nick := newNick;
          server := server (cred_object_of creds);
          password := password (cred_object_of creds);
          port := port (cred_object_of creds);
          secure := secure (cred_object_of creds) |} |}.

Definition update_fulfilled (j : job) (c : client) : M unit :=
  _ ← (if jstring_eqb (objectType (object j)) (lit "address") then
         (* send nick change command *)
         _ ← raw c [lit "NICK"; target_displayName (target j)];
         (* preserve old creds *)
         let oldCreds := client_credentials c in
         (* set new credentials *)
         let newCreds := renamed (client_credentials c) (target_displayName (target j)) in
         _ ← setConfig (lit "credentials") (target_displayName (target j)) newCreds;
         (* reset index of client object in connection manager *)
         move (key c) oldCreds
              (concat (target_displayName (target j))
                      (concat (lit "@") (server (cred_object_of newCreds))))
              newCreds
       else if jstring_eqb (objectType (object j)) (lit "topic") then
         (* update topic *)
         raw c [lit "topic"; target_displayName (target j); topic (object j)]
       else mret tt);
  done None.

Definition update (j : job) (w : world) : world :=
  dropped (then_ (_getClient j None w) (update_fulfilled j) (Some done_with)).

Definition observe_fulfilled (j : job) (c : client) : M unit :=
  if jstring_eqb (objectType (object j)) (lit "attendance") then
    _ ← raw c [lit "NAMES"; target_displayName (target j)];
    done None
  else
    done (Some (EValue (JStr (concat (lit "unknown objectType '")
                                (concat (objectType (object j)) (lit "'")))))).

Definition observe (j : job) (w : world) : world :=
  dropped (then_ (_getClient j None w) (observe_fulfilled j) (Some done_with)).

Definition cleanup (j : job) (w : world) : world := snd (done None w).

(** The verbs of the schema, and the dispatch of a job to its verb. *)
Inductive verb := Update | Join | Leave | Send | Observe.

Definition dispatch (v : verb) : job -> world -> world :=
  match v with
  | Update => update
  | Join => join
  | Leave => leave
  | Send => send
  | Observe => observe
  end.

(** How often the completion callback was invoked, and with what. *)
Definition callbacks (t : list effect) : list (option errval) :=
  omap (fun e => match e with Done a => Some a | _ => None end) t.

Definition backend_commands (t : list effect) : list (list jstring) :=
  omap (fun e => match e with Raw _ cmd => Some cmd | _ => None end) t.


(** ** The adapter as a transition system *)

(** A statement that leaves [_channels] as it found it. *)
Definition keeps_channels {A} (m : M A) : Prop :=
  forall w, _channels (snd (m w)) = _channels w.

(** One step of the adapter's life: a job is dispatched to its verb, the
    supervisor calls [cleanup], one of the private channel methods is called
    directly, or the collaborators (credential store, pool, network) change
    on their own. *)
Inductive step : world -> world -> Prop :=
| step_dispatch (v : verb) (j : job) (w : world) :
    step w (dispatch v j w)
| step_cleanup (j : job) (w : world) :
    step w (cleanup j w)
| step_method (m channel : jstring) (f : jstring -> M unit) (w : world) :
    prototype_method m = Some f ->
    step w (snd (f channel w))
| step_collaborators (w : world) st pl be :
    step w {| _channels := _channels w; store := st; pool := pl;
              backend := be; trace := trace w |}.

(** The states an adapter can be in, from its construction on. *)
Inductive reachable : world -> Prop :=
| reachable_new st pl be : reachable (IRC st pl be)
| reachable_step w w' : reachable w -> step w w' -> reachable w'.

(** ** Sample data *)

Definition sample_creds (n s : string) : credentials :=
  {| cred_actor_of :=
       {| cred_id := lit ("irc://" ++ n ++ "@" ++ s);
          cred_displayName := lit n; cred_name := None |};
     cred_object_of :=
       {| cred_objectType := lit "credentials"; nick := lit n; server := lit s;
          password := None; port := None; secure := None |} |}.

Definition sample_job (n s tgt ty body : string) : job :=
  {| actor := {| id := lit ("irc://" ++ n ++ "@" ++ s); displayName := lit n |};
     target := {| target_displayName := lit tgt |};
     object := {| objectType := lit ty; content := lit body; topic := lit body |} |}.

(** A fresh adapter for [alice] on [irc.host.net] with stored credentials,
    an empty pool and a backend that registers every client with handle 7. *)
Definition alice_world : world :=
  IRC {[ lit "irc://alice@irc.host.net" := sample_creds "alice" "irc.host.net" ]}
      ∅ (fun _ => Registered 7%nat).

(** The rename of [alice] to [alice2]. *)
Definition alice_rename : job :=
  sample_job "alice" "irc.host.net" "alice2" "address" "".

(** ** The connector of [_createClient]

    The options [connect] hands to [self.api.createClient]. [parseInt] is
    only applied to a port the credentials carry; how it reads a number that
    is no integer is left open. *)

Record module_creds_t := {
  mc_nick : jstring;
  mc_user : jstring;
  mc_server : jstring;
  mc_realname : jstring;
  mc_secure : bool;
  mc_port : Z
}.

(** [(typeof this.credentials.object.secure === 'boolean')
      ? this.credentials.object.secure : true] *)
Definition is_secure (creds : credentials) : bool :=
  match secure (cred_object_of creds) with
  | Some b => b
  | None => true
  end.

(** [a || b] on two strings. *)
Definition or_string (a b : jstring) : jstring :=
  if truthy (JStr a) then a else b.

Definition module_creds (parseInt : Z -> Z) (creds : credentials) : module_creds_t :=
  {| mc_nick := nick (cred_object_of creds);
     mc_user := nick (cred_object_of creds);
     mc_server := or_string (server (cred_object_of creds)) (lit "irc.freenode.net");
     mc_realname := or_string (cred_displayName (cred_actor_of creds))
                              (nick (cred_object_of creds));
     mc_secure := is_secure creds;
     mc_port :=
       match port (cred_object_of creds) with
       | Some p =>
           if truthy (JNum p) then parseInt p
           else if is_secure creds then 6697 else 6667
       | None => if is_secure creds then 6697 else 6667
       end |}.

(** ** More sample data *)

(** [alice_world] with a backend that never answers, and with one that
    registers without handing over a client object. *)
Definition silent_backend_world : world :=
  IRC {[ lit "irc://alice@irc.host.net" := sample_creds "alice" "irc.host.net" ]}
      ∅ (fun _ => TimedOut).

Definition no_client_world : world :=
  IRC {[ lit "irc://alice@irc.host.net" := sample_creds "alice" "irc.host.net" ]}
      ∅ (fun _ => NoClient).

(** An adapter whose credential store is empty. *)
Definition no_credentials_world : world :=
  IRC ∅ ∅ (fun _ => Registered 7%nat).

Definition alice_client : client :=
  {| key := lit "irc://alice@irc.host.net";
     client_credentials := sample_creds "alice" "irc.host.net";
     connection := 7%nat |}.

End Irc.

(** * The event translator of the IRC platform

    The ['*'] listener that [_createClient] hands to the connection pool; the
    pool calls it with every event object the backend emits. *)

Module IrcListener.
Import JS.

(** The properties of an event object the listener reads. A property the
    event does not carry is [JUndef]. *)
Record event := {
  names : jsval;
  channel : jsval;
  who : jsval;
  topic : jsval;
  topicBy : jsval;
  newnick : jsval;
  nickname : jsval;
  raw : jsval;
  target : jsval;
  message : jsval;
  motd : jsval;
  mode : jsval
}.

(** [self.session.send(msg)] *)
Definition send (msg : jsval) : Tr jsval unit := tell msg.

Definition address (v : jsval) : jsval := obj [("address", v)].

(** [object.raw.indexOf(marker) >= 0] *)
Definition raw_has (object : event) (marker : string) : Tr jsval bool :=
  i ← eval (call_indexOf (raw object) (lit marker));
  mret (i >=? 0).

Definition listener (object : event) : Tr jsval unit :=
  if typeof_is (names object) TObject then
    (* user list *)
    send (obj [("verb", str "observe");
               ("actor", address (channel object));
               ("target", JArr [address (channel object)]);
               ("object", obj [("objectType", str "attendance");
                               ("members", names object)])])
  else if typeof_is (channel object) TString && typeof_is (who object) TObject then
    (* full who *)
    mret tt
  else if typeof_is (topic object) TString && typeof_is (topicBy object) TString then
    (* topic *)
    send (obj [("verb", str "update");
               ("actor", address (topicBy object));
               ("target", JArr [address (channel object)]);
               ("object", obj [("objectType", str "topic");
                               ("topic", topic object)])])
  else if typeof_is (newnick object) TString then
    (* nick change *)
    send (obj [("verb", str "update");
               ("actor", address (nickname object));
               ("target", JArr [address (newnick object)]);
               ("object", obj [("objectType", str "address")])])
  else
    is_join ← and_then (typeof_is (channel object) TString) (raw_has object " JOIN ");
    if (is_join : bool) then
      (* join *)
      if negb (truthy (nickname object)) then mret tt
      else
        send (obj [("verb", str "join");
                   ("actor", address (nickname object));
                   ("target", JArr [address (channel object)]);
                   ("object", obj [])])
    else if typeof_is (target object) TString && typeof_is (message object) TString then
      (* message *)
      if negb (truthy (nickname object)) then mret tt
      else
        send (obj [("verb", str "send");
                   ("actor", address (nickname object));
                   ("target", JArr [address (target object)]);
                   ("object", obj [("text", message object)])])
    else if typeof_is (motd object) TObject then
      (* skip *)
      mret tt
    else if typeof_is (mode object) TString then
      (* skip *)
      mret tt
    else if typeof_is (nickname object) TString && typeof_is (target object) TUndefined then
      (* QUIT *)
      send (obj [("verb", str "leave");
                 ("actor", address (nickname object));
                 ("target", JArr [address (str "")]);
                 ("object", obj [("text", str "user has quit")])])
    else
      is_part ← and_then (typeof_is (channel object) TString) (raw_has object " PART ");
      if (is_part : bool) then
        (* leave *)
        send (obj [("verb", str "leave");
                   ("actor", address (nickname object));
                   ("target", JArr [address (target object)]);
                   ("object", obj [("text", str "user has left the channel")])])
      else mret tt.

(** ** The listener as a precedence list of shapes *)

Inductive shape :=
| Roster | WhoList | TopicChange | Rename | JoinNotice | Message
| Motd | ModeChange | Quit | Part.

(** The structural test of a shape; testing a join or a part reads
    [object.raw] and may throw. *)
Definition test (s : shape) (object : event) : Tr jsval bool :=
  match s with
  | Roster => mret (typeof_is (names object) TObject)
  | WhoList => mret (typeof_is (channel object) TString && typeof_is (who object) TObject)
  | TopicChange => mret (typeof_is (topic object) TString && typeof_is (topicBy object) TString)
  | Rename => mret (typeof_is (newnick object) TString)
  | JoinNotice => and_then (typeof_is (channel object) TString) (raw_has object " JOIN ")
  | Message => mret (typeof_is (target object) TString && typeof_is (message object) TString)
  | Motd => mret (typeof_is (motd object) TObject)
  | ModeChange => mret (typeof_is (mode object) TString)
  | Quit => mret (typeof_is (nickname object) TString && typeof_is (target object) TUndefined)
  | Part => and_then (typeof_is (channel object) TString) (raw_has object " PART ")
  end.

(** What is sent for an event once its shape is decided. *)
Definition translate (s : shape) (object : event) : Tr jsval unit :=
  match s with
  | Roster =>
      send (obj [("verb", str "observe");
                 ("actor", address (channel object));
                 ("target", JArr [address (channel object)]);
                 ("object", obj [("objectType", str "attendance");
                                 ("members", names object)])])
  | WhoList | Motd | ModeChange => mret tt
  | TopicChange =>
      send (obj [("verb", str "update");
                 ("actor", address (topicBy object));
                 ("target", JArr [address (channel object)]);
                 ("object", obj [("objectType", str "topic");
                                 ("topic", topic object)])])
  | Rename =>
      send (obj [("verb", str "update");
                 ("actor", address (nickname object));
                 ("target", JArr [address (newnick object)]);
                 ("object", obj [("objectType", str "address")])])
  | JoinNotice =>
      if truthy (nickname object) then
        send (obj [("verb", str "join");
                   ("actor", address (nickname object));
                   ("target", JArr [address (channel object)]);
                   ("object", obj [])])
      else mret tt
  | Message =>
      if truthy (nickname object) then
        send (obj [("verb", str "send");
                   ("actor", address (nickname object));
                   ("target", JArr [address (target object)]);
                   ("object", obj [("text", message object)])])
      else mret tt
  | Quit =>
      send (obj [("verb", str "leave");
                 ("actor", address (nickname object));
                 ("target", JArr [address (str "")]);
                 ("object", obj [("text", str "user has quit")])])
  | Part =>
      send (obj [("verb", str "leave");
                 ("actor", address (nickname object));
                 ("target", JArr [address (target object)]);
                 ("object", obj [("text", str "user has left the channel")])])
  end.

(** First matching shape wins; an event matching no shape is dropped. *)
Fixpoint first_match (order : list shape) (object : event) : Tr jsval unit :=
  match order with
  | [] => mret tt
  | s :: rest =>
      hit ← test s object;
      if (hit : bool) then translate s object else first_match rest object
  end.

(** The order in which the listener tests the shapes. *)
Definition listener_precedence : list shape :=
  [Roster; WhoList; TopicChange; Rename; JoinNotice; Message;
   Motd; ModeChange; Quit; Part].

(** The order of section 4.3 of the specification: roster snapshot, topic
    change, identity rename, join, message, disconnect/quit, part, then the
    known-ignorable payloads. *)
Definition spec_precedence : list shape :=
  [Roster; TopicChange; Rename; JoinNotice; Message; Quit; Part;
   Motd; ModeChange].

Definition classify_in_spec_order : event -> Tr jsval unit :=
  first_match spec_precedence.

(** An event carrying none of the properties. *)
Definition empty_event : event :=
  {| names := JUndef; channel := JUndef; who := JUndef; topic := JUndef;
     topicBy := JUndef; newnick := JUndef; nickname := JUndef; raw := JUndef;
     target := JUndef; message := JUndef; motd := JUndef; mode := JUndef |}.

(** A mode change reported for a nick, with no target. *)
Definition mode_event : event :=
  {| names := JUndef; channel := JUndef; who := JUndef; topic := JUndef;
     topicBy := JUndef; newnick := JUndef; nickname := str "bob";
     raw := str ":bob MODE bob :+i";
     target := JUndef; message := JUndef; motd := JUndef; mode := str "+i" |}.

(** An event that names a channel and carries no raw line. *)
Definition channel_only_event : event :=
  {| names := JUndef; channel := str "#room"; who := JUndef; topic := JUndef;
     topicBy := JUndef; newnick := JUndef; nickname := JUndef; raw := JUndef;
     target := JUndef; message := JUndef; motd := JUndef; mode := JUndef |}.

(** ** Reading the listener's input and output *)

(** Whether a value has an [indexOf] method to call. *)
Definition has_indexOf (v : jsval) : bool :=
  match v with
  | JStr _ | JArr _ => true
  | _ => false
  end.

(** Whether the listener reads [object.raw]: none of the four shapes tested
    before the join matches, and [object.channel] is a string. *)
Definition reads_raw (object : event) : bool :=
  negb (typeof_is (names object) TObject)
  && negb (typeof_is (channel object) TString && typeof_is (who object) TObject)
  && negb (typeof_is (topic object) TString && typeof_is (topicBy object) TString)
  && negb (typeof_is (newnick object) TString)
  && typeof_is (channel object) TString.

(** The verbs of [IRC.prototype.schema.messages.properties.verb.enum]. *)
Definition schema_verbs : list string :=
  ["update"; "join"; "leave"; "send"; "observe"].

(** [msg.object.text] of a message the listener built. *)
Definition text_of (msg : jsval) : jsval :=
  match msg with
  | JObj fields =>
      match assoc (lit "object") fields with
      | Some (JObj o) => default JUndef (assoc (lit "text") o)
      | _ => JUndef
      end
  | _ => JUndef
  end.

(** A part notification as the backend emits it: nick, channel and raw
    line, no target. *)
Definition part_event : event :=
  {| names := JUndef; channel := str "#room"; who := JUndef; topic := JUndef;
     topicBy := JUndef; newnick := JUndef; nickname := str "bob";
     raw := str ":bob!b@host PART #room";
     target := JUndef; message := JUndef; motd := JUndef; mode := JUndef |}.

End IrcListener.

(** * The XMPP platform: [sockethub-platform-xmpp/lib/incoming-handlers.js] *)

Module Xmpp.
Import JS.

(** ** The session and its guard *)

(** A property of the session object: a function, or any other value. *)
Inductive property :=
| Function
| Data (v : jsval).

Definition typeof_property (p : property) : jstype :=
  match p with
  | Function => TFunction
  | Data v => typeof v
  end.

(** The state of the session object the worker owns. The worker may change
    it at any time between two callbacks; a guard refers to the object and
    sees its current state at every call. *)
Record session := {
  actor : jsval;
  debug : property;
  sendToClient : property
}.

(** [session[funcName]] *)
Definition session_property (s : session) (funcName : jstring) : property :=
  if jstring_eqb funcName (lit "actor") then Data (actor s)
  else if jstring_eqb funcName (lit "debug") then debug s
  else if jstring_eqb funcName (lit "sendToClient") then sendToClient s
  else Data JUndef.

(** A call that reached a function of the session. *)
Inductive call := Call (funcName : jstring) (msg : jsval).

(** What a caller may pass as the session. *)
Inductive session_arg :=
| Undefined
| Null
| Object (s : session).

(** The object [referenceProtection] returns: [actor] is copied when the
    guard is built; [debug] and [sendToClient] are the closures of
    [checkScope] over the session. *)
Record guard := { guard_actor : jsval }.

(** [checkScope(funcName)(msg)], run while the session is in state [s]. *)
Definition checkScope (funcName : jstring) (s : session) (msg : jsval)
    : Tr call unit :=
  if bool_decide (typeof_property (session_property s funcName) = TFunction)
  then tell (Call funcName msg)
  else mret tt.

Definition referenceProtection (arg : session_arg) : completion guard :=
  match arg with
  | Undefined => Throw (Error (lit "session object not provided"))
  | Null => Throw (TypeError (lit "Cannot read property 'actor' of null"))
  | Object s => Normal {| guard_actor := actor s |}
  end.

(** [this.session.debug(msg)] and [this.session.sendToClient(msg)] *)
Definition guard_debug (s : session) (msg : jsval) : Tr call unit :=
  checkScope (lit "debug") s msg.

Definition guard_sendToClient (s : session) (msg : jsval) : Tr call unit :=
  checkScope (lit "sendToClient") s msg.

(** A data property of the guard object itself; it has [actor] and the two
    closures, nothing else. *)
Definition guard_property (g : guard) (name : jstring) : jsval :=
  if jstring_eqb name (lit "actor") then guard_actor g else JUndef.

(** The session is torn down: its capability functions no longer exist. *)
Definition torn_down (s : session) : Prop :=
  typeof_property (debug s) <> TFunction /\
  typeof_property (sendToClient s) <> TFunction.

Definition live (s : session) : Prop :=
  typeof_property (debug s) = TFunction /\
  typeof_property (sendToClient s) = TFunction.

(** What the worker does to the session object when it kills the platform. *)
Definition teardown (s : session) : session :=
  {| actor := actor s; debug := Data JUndef; sendToClient := Data JUndef |}.

(** The messages that reached [sendToClient]. *)
Definition sent (t : list call) : list jsval :=
  omap (fun c => match c with
                 | Call f msg =>
                     if jstring_eqb f (lit "sendToClient") then Some msg else None
                 end) t.

(** A run in which no call reached the session. *)
Definition silent {A} (m : Tr call A) : Prop := fst m = [].

(** A run in which at most [n] messages reached [sendToClient]. *)
Definition sends_at_most {A} (n : nat) (m : Tr call A) : Prop :=
  (length (sent (fst m)) <= n)%nat.

(** ** Stanzas *)

(** The part of the element interface the handlers use: [stanza.attrs.k],
    [stanza.is(name)], [stanza.getChild(name)], [stanza.getChildren(name)]
    and [stanza.toString()]. *)
Class Stanza (E : Type) := {
  attrs : E -> jstring -> option jstring;
  is_ : E -> jstring -> bool;
  getChild : E -> jstring -> option E;
  getChildren : E -> jstring -> list E;
  toString : E -> jstring
}.

(** ** class IncomingHandlers *)

Section IncomingHandlers.
Context {E : Type} `{Stanza E}.

(** [this.roomAttendance(stanza)]: the method is not defined in this file;
    its behaviour is left open. *)
Variable roomAttendance : guard -> session -> E -> Tr call unit.

(** [constructor(session)] *)
Definition constructor (arg : session_arg) : completion guard :=
  referenceProtection arg.

Definition close (this : guard) (s : session) : Tr call unit :=
  _ ← guard_debug s (str "received close event with no handler specified");
  _ ← guard_sendToClient s
        (obj [("@type", str "close");
              ("actor", guard_actor this);
              ("target", guard_actor this)]);
  aid ← eval (get_prop (guard_actor this) (lit "@id"));
  _ ← guard_debug s
        (JStr (lit "**** xmpp this.session.for " ++ show aid ++ lit " closed"));
  (* this.session.connection.disconnect() *)
  eval (call_method (guard_property this (lit "connection")) (lit "disconnect")).

Definition error (this : guard) (s : session) (error : jsval) : Tr call unit :=
  try_catch
    (_ ← guard_debug s (JStr (lit "*** XMPP ERROR (rl): " ++ show error));
     guard_sendToClient s
       (obj [("@type", str "error");
             ("object", obj [("@type", str "error"); ("content", error)])]))
    (fun e => guard_debug s (str "*** XMPP ERROR (rl catch): ")).

Definition online (this : guard) (s : session) : Tr call unit :=
  _ ← guard_debug s (str "online");
  aid ← eval (get_prop (guard_actor this) (lit "@id"));
  guard_debug s (JStr (lit "reconnectioned " ++ show aid)).

(** [for (let e in entries) { if (!entries.hasOwnProperty(e)) continue; ... }]
    over an array: the body runs on every element, in index order. *)
Fixpoint for_in {A} (entries : list A) (body : A -> Tr call unit) : Tr call unit :=
  match entries with
  | [] => mret tt
  | e :: rest => _ ← body e; for_in rest body
  end.

Definition attr_is (e : E) (k : string) (v : string) : bool :=
  strict_eq_str (of_opt (attrs e (lit k))) (lit v).

(** The type and the content of the message an error stanza is turned into. *)
Definition error_type_and_message (stanza : E) : jstring * jstring :=
  let error := getChild stanza (lit "error") in
  let message := toString stanza in
  let type := lit "message" in
  let type := if is_ stanza (lit "presence") then lit "update" else type in
  match error with
  | Some error =>
      let message := toString error in
      if bool_decide (is_Some (getChild error (lit "remote-server-not-found"))) then
        (* when we get this type of return message, we know it was a response from a join *)
        (lit "join", lit "remote server not found " ++ to_str (attrs stanza (lit "from")))
      else (type, message)
  | None => (type, message)
  end.

(** Whether the error element of the stanza carries the
    [remote-server-not-found] condition, and the text of the error: the
    error element when there is one, the whole stanza otherwise. *)
Definition remote_server_not_found (stanza : E) : bool :=
  match getChild stanza (lit "error") with
  | Some error => bool_decide (is_Some (getChild error (lit "remote-server-not-found")))
  | None => false
  end.

Definition error_text (stanza : E) : jstring :=
  match getChild stanza (lit "error") with
  | Some error => toString error
  | None => toString stanza
  end.

(** The message an error stanza is turned into. *)
Definition error_message_of (stanza : E) : jsval :=
  obj [("@type",
        JStr (if remote_server_not_found stanza then lit "join"
              else if is_ stanza (lit "presence") then lit "update"
              else lit "message"));
       ("actor", obj [("@id", of_opt (attrs stanza (lit "from")));
                      ("@type", str "room")]);
       ("object",
        obj [("@type", str "error");
             ("content",
              JStr (if remote_server_not_found stanza
                    then lit "remote server not found "
                         ++ to_str (attrs stanza (lit "from"))
                    else error_text stanza))]);
       ("target", obj [("@id", of_opt (attrs stanza (lit "to")));
                       ("@type", str "person")])].

(** One roster entry of a query result. In the first branch the object
    literal reads [state], which no scope of this file binds. *)
Definition roster_entry (this : guard) (s : session) (entry : E) : Tr call unit :=
  _ ← guard_debug s (str "STANZA ATTRS: ");
  let who := obj [("@id", of_opt (attrs entry (lit "jid")));
                  ("displayName", of_opt (attrs entry (lit "name")))] in
  if attr_is entry "subscription" "both" then
    state ← eval (free_identifier (lit "state"));
    guard_sendToClient s
      (obj [("@type", str "update");
            ("actor", who);
            ("target", guard_actor this);
            ("object", obj [("@type", str "presence");
                            ("status", str "");
                            ("presence", state)])])
  else if attr_is entry "subscription" "from"
          && truthy (of_opt (attrs entry (lit "ask")))
          && attr_is entry "ask" "subscribe" then
    guard_sendToClient s
      (obj [("@type", str "update");
            ("actor", who);
            ("target", guard_actor this);
            ("object", obj [("@type", str "presence");
                            ("statusText", str "");
                            ("presence", str "notauthorized")])])
  else
    guard_sendToClient s
      (obj [("@type", str "request-friend");
            ("actor", who);
            ("target", guard_actor this)]).

(** Handles all unknown conditions that have no explicit handler. *)
Definition __stanza (this : guard) (s : session) (stanza : E) : Tr call unit :=
  if attr_is stanza "type" "error" then
    let '(type, message) := error_type_and_message stanza in
    guard_sendToClient s
      (obj [("@type", JStr type);
            ("actor", obj [("@id", of_opt (attrs stanza (lit "from")));
                           ("@type", str "room")]);
            ("object", obj [("@type", str "error");
                            ("content", JStr message)]);
            ("target", obj [("@id", of_opt (attrs stanza (lit "to")));
                            ("@type", str "person")])])
  else if is_ stanza (lit "iq") then
    if attr_is stanza "id" "muc_id" && attr_is stanza "type" "result" then
      _ ← guard_debug s (str "got room attendance list");
      roomAttendance this s stanza
    else
      match getChild stanza (lit "query") with
      | Some query =>
          for_in (getChildren query (lit "item")) (roster_entry this s)
      | None => mret tt
      end
  else mret tt.

End IncomingHandlers.

(** ** XML trees as stanzas

    A reference implementation of the element interface on XML trees: names
    are compared without their namespace prefix, [getChild] is the first of
    [getChildren], and text children are never returned as elements. *)

Inductive node :=
| Text (s : jstring)
| Element (name : jstring) (attributes : list (jstring * jstring))
          (children : list node).

Fixpoint lookup_attr (k : jstring) (l : list (jstring * jstring)) : option jstring :=
  match l with
  | [] => None
  | (k', v) :: rest => if jstring_eqb k' k then Some v else lookup_attr k rest
  end.

(** The part of a name after its first colon, or the whole name. *)
Definition local_name (n : jstring) : jstring :=
  let i := str_indexOf n (lit ":") in
  if i >=? 0 then drop (Z.to_nat (i + 1)) n else n.

Definition node_is (n : node) (name : jstring) : bool :=
  match n with
  | Element nm _ _ => jstring_eqb (local_name nm) name
  | Text _ => false
  end.

Definition node_attrs (n : node) (k : jstring) : option jstring :=
  match n with
  | Element _ a _ => lookup_attr k a
  | Text _ => None
  end.

Definition node_getChildren (n : node) (name : jstring) : list node :=
  match n with
  | Element _ _ cs => filter (fun c => node_is c name = true) cs
  | Text _ => []
  end.

Definition node_getChild (n : node) (name : jstring) : option node :=
  head (node_getChildren n name).

(** Text is written with [&], [<] and [>] escaped; an attribute value also
    with the double quote and the apostrophe escaped. *)
Definition escape_text (s : jstring) : jstring :=
  flat_map (fun c =>
    if (c =? 38)%N then lit "&amp;"
    else if (c =? 60)%N then lit "&lt;"
    else if (c =? 62)%N then lit "&gt;"
    else [c]) s.

Definition escape (s : jstring) : jstring :=
  flat_map (fun c =>
    if (c =? 38)%N then lit "&amp;"
    else if (c =? 60)%N then lit "&lt;"
    else if (c =? 62)%N then lit "&gt;"
    else if (c =? 34)%N then lit "&quot;"
    else if (c =? 39)%N then lit "&apos;"
    else [c]) s.

Fixpoint node_toString (n : node) : jstring :=
  match n with
  | Text s => escape_text s
  | Element nm a cs =>
      let open := lit "<" ++ nm ++
        flat_map (fun kv => lit " " ++ fst kv ++ lit "=" ++ [34%N]
                            ++ escape (snd kv) ++ [34%N]) a in
      match cs with
      | [] => open ++ lit "/>"
      | _ => open ++ lit ">" ++ flat_map node_toString cs ++ lit "</" ++ nm ++ lit ">"
      end
  end.

#[global] Instance node_stanza : Stanza node := {|
  attrs := node_attrs;
  is_ := node_is;
  getChild := node_getChild;
  getChildren := node_getChildren;
  toString := node_toString
|}.

(** With nothing but this file loaded, [this.roomAttendance] is undefined. *)
Definition roomAttendance_undefined (g : guard) (s : session) (stanza : node)
    : Tr call unit :=
  eval (Throw (TypeError (lit "this.roomAttendance is not a function"))).

(** ** Sample data *)

Definition el (name : string) (a : list (string * string)) (cs : list node) : node :=
  Element (lit name) (map (fun kv => (lit (fst kv), lit (snd kv))) a) cs.

Definition sample_session : session :=
  {| actor := obj [("@id", str "alice@jabber.net")];
     debug := Function; sendToClient := Function |}.

Definition sample_guard : guard := {| guard_actor := actor sample_session |}.

(** A roster query result with two contacts without subscription. *)
Definition roster_two : node :=
  el "iq" [("type", "result"); ("id", "roster_1")]
    [ el "query" [("xmlns", "jabber:iq:roster")]
        [ el "item" [("jid", "bob@jabber.net"); ("subscription", "none")] [];
          el "item" [("jid", "carol@jabber.net"); ("subscription", "none")] [] ] ].

(** A roster query result with one mutual contact. *)
Definition roster_both : node :=
  el "iq" [("type", "result"); ("id", "roster_1")]
    [ el "query" [("xmlns", "jabber:iq:roster")]
        [ el "item" [("jid", "bob@jabber.net"); ("name", "Bob");
                     ("subscription", "both")] [] ] ].

(** A failed room join. *)
Definition join_failure : node :=
  el "presence" [("type", "error"); ("from", "room@nowhere.example/alice");
                 ("to", "alice@jabber.net")]
    [ el "error" [("type", "cancel")]
        [ el "remote-server-not-found"
             [("xmlns", "urn:ietf:params:xml:ns:xmpp-stanzas")] [] ] ].

(** ** What a run shows to the client *)

(** The messages a list of [sendToClient] calls delivers on a session: all
    of them while the session has the function, none once it is gone. *)
Definition delivered (s : session) (msgs : list jsval) : list jsval :=
  if bool_decide (typeof_property (sendToClient s) = TFunction) then msgs else [].

(** The messages that reached the client, and how the handler completed. *)
Definition obs {A} (m : Tr call A) : list jsval * completion A :=
  (sent (fst m), snd m).

Definition close_message (this : guard) : jsval :=
  obj [("@type", str "close");
       ("actor", guard_actor this);
       ("target", guard_actor this)].

Definition error_message (error : jsval) : jsval :=
  obj [("@type", str "error");
       ("object", obj [("@type", str "error"); ("content", error)])].

Section Roster.
Context {E : Type} `{Stanza E}.

(** A roster entry with [subscription === 'both']. *)
Definition is_mutual (entry : E) : bool := attr_is entry "subscription" "both".

(** The message [__stanza] sends for a roster entry that is not mutual. *)
Definition entry_message (this : guard) (entry : E) : jsval :=
  let who := obj [("@id", of_opt (attrs entry (lit "jid")));
                  ("displayName", of_opt (attrs entry (lit "name")))] in
  if attr_is entry "subscription" "from"
     && truthy (of_opt (attrs entry (lit "ask")))
     && attr_is entry "ask" "subscribe"
  then obj [("@type", str "update");
            ("actor", who);
            ("target", guard_actor this);
            ("object", obj [("@type", str "presence");
                            ("statusText", str "");
                            ("presence", str "notauthorized")])]
  else obj [("@type", str "request-friend");
            ("actor", who);
            ("target", guard_actor this)].

(** The entries that stand before the first mutual one. *)
Fixpoint before_mutual (entries : list E) : list E :=
  match entries with
  | [] => []
  | e :: rest => if is_mutual e then [] else e :: before_mutual rest
  end.

End Roster.

(** ** [nextId]

    [let idCounter = 0; function nextId() { return ++idCounter; }]. The
    counter is a double: it counts exactly up to 2^53, where adding one no
    longer changes it. [increment] is [++] on the values the counter takes,
    the integers from 0 to 2^53. *)
Definition max_exact : Z := 9007199254740992.

Definition increment (n : Z) : Z := if n <? max_exact then n + 1 else n.

(** The id returned, and the counter after the call. *)
Definition nextId (idCounter : Z) : Z * Z :=
  let n := increment idCounter in (n, n).

(** [k] calls in a row: the ids returned, and the counter after them. *)
Fixpoint nextIds (k : nat) (idCounter : Z) : list Z * Z :=
  match k with
  | O => ([], idCounter)
  | S k' =>
      let '(i, c) := nextId idCounter in
      let '(l, c') := nextIds k' c in
      (i :: l, c')
  end.

(** A roster result: one plain contact, one mutual contact, one more plain
    contact. *)
Definition roster_mixed : node :=
  el "iq" [("type", "result"); ("id", "roster_1")]
    [ el "query" [("xmlns", "jabber:iq:roster")]
        [ el "item" [("jid", "bob@jabber.net"); ("subscription", "none")] [];
          el "item" [("jid", "carol@jabber.net"); ("subscription", "both")] [];
          el "item" [("jid", "dave@jabber.net"); ("subscription", "none")] [] ] ].

(** A session that lost [debug] and kept [sendToClient]. *)
Definition quiet_session : session :=
  {| actor := obj [("@id", str "alice@jabber.net")];
     debug := Data JUndef; sendToClient := Function |}.

End Xmpp.

(** * Facts about the JavaScript model *)

Module JSFacts.
Import JS.

Lemma jstring_eqb_eq (a b : jstring) : jstring_eqb a b = true <-> a = b.
Proof. unfold jstring_eqb. apply bool_decide_eq_true. Qed.

Lemma jstring_eqb_neq (a b : jstring) : jstring_eqb a b = false <-> a <> b.
Proof. unfold jstring_eqb. apply bool_decide_eq_false. Qed.

(** [indexOf] answers -1 or a position at or after the start of the search. *)
Lemma index_from_range (needle hay : jstring) (i : Z) :
  index_from needle hay i = -1 \/ i <= index_from needle hay i.
Proof.
  revert i. induction hay as [|c hay IH]; intros i; simpl.
  - destruct (is_prefix needle []); [right; lia | left; reflexivity].
  - destruct (is_prefix needle (c :: hay)); [right; lia |].
    destruct (IH (i + 1)) as [-> | Hle]; [left; reflexivity | right; lia].
Qed.

(** [channel.indexOf('#') === 0] holds exactly for the strings whose first
    code unit is ['#']. *)
Lemma indexOf_hash_zero (s : jstring) :
  (str_indexOf s (lit "#") =? 0) = starts_with_hash s.
Proof.
  unfold str_indexOf. destruct s as [|c s]; [reflexivity |].
  cbn [index_from starts_with_hash]. change (lit "#") with [35%N].
  cbn [is_prefix]. rewrite andb_true_r, N.eqb_sym.
  destruct (c =? 35)%N; [reflexivity |].
  destruct (index_from_range [35%N] s (0 + 1)) as [-> | Hle]; [reflexivity |].
  apply Z.eqb_neq. lia.
Qed.

Lemma list_index_from_range (x : jstring) (l : list jstring) (i : Z) :
  list_index_from x l i = -1 \/ i <= list_index_from x l i.
Proof.
  revert i. induction l as [|y l IH]; intros i; simpl; [left; reflexivity |].
  destruct (jstring_eqb y x); [right; lia |].
  destruct (IH (i + 1)) as [-> | Hle]; [left; reflexivity | right; lia].
Qed.

Lemma list_index_from_found (x : jstring) (l : list jstring) (i : Z) :
  0 <= i -> (list_index_from x l i >=? 0) = bool_decide (x ∈ l).
Proof.
  revert i. induction l as [|y l IH]; intros i Hi; cbn [list_index_from].
  - rewrite bool_decide_eq_false_2 by apply not_elem_of_nil. reflexivity.
  - destruct (jstring_eqb y x) eqn:Heq.
    + apply jstring_eqb_eq in Heq as ->.
      rewrite bool_decide_eq_true_2 by apply list_elem_of_here.
      apply Z.geb_le. lia.
    + apply jstring_eqb_neq in Heq.
      rewrite (IH (i + 1)) by lia.
      apply bool_decide_ext. rewrite elem_of_cons. intuition congruence.
Qed.

(** [l.indexOf(x) >= 0] exactly when [x] is an element of [l]. *)
Lemma arr_indexOf_found (l : list jstring) (x : jstring) :
  (arr_indexOf l x >=? 0) = bool_decide (x ∈ l).
Proof. apply list_index_from_found. lia. Qed.

(** ** Trimming *)

Lemma drop_leading_split (s : jstring) :
  exists pre, s = pre ++ drop_leading s /\ all_ws pre /\
              (forall c, head (drop_leading s) = Some c -> is_ws c = false).
Proof.
  induction s as [|c s (pre & Hs & Hpre & Hhd)]; simpl.
  - exists []. split; [reflexivity |]. split; [reflexivity | discriminate].
  - destruct (is_ws c) eqn:Hc.
    + exists (c :: pre). split; [simpl; congruence |]. split; [| exact Hhd].
      unfold all_ws. simpl. rewrite Hc. exact Hpre.
    + exists []. split; [reflexivity |]. split; [reflexivity |].
      simpl. intros c' [= <-]. exact Hc.
Qed.

Lemma drop_trailing_nil (s : jstring) :
  drop_trailing s = [] <-> all_ws s.
Proof.
  unfold all_ws. destruct s as [|c s]; simpl; [tauto |].
  destruct (is_ws c && forallb is_ws s); split; congruence.
Qed.

Lemma drop_trailing_split (s : jstring) :
  exists post, s = drop_trailing s ++ post /\ all_ws post /\
               (forall c, last (drop_trailing s) = Some c -> is_ws c = false).
Proof.
  induction s as [|c s (post & Hs & Hpost & Hlast)].
  - exists []. split; [reflexivity |]. split; [reflexivity | discriminate].
  - cbn [drop_trailing]. destruct (forallb is_ws (c :: s)) eqn:Hall.
    + exists (c :: s). split; [reflexivity |]. split; [exact Hall | discriminate].
    + exists post. split; [simpl; congruence |]. split; [exact Hpost |].
      intros c'. destruct (drop_trailing s) as [|d r] eqn:Hd.
      * simpl. intros [= <-]. apply drop_trailing_nil in Hd.
        unfold all_ws in Hd. simpl in Hall. rewrite Hd, andb_true_r in Hall.
        exact Hall.
      * rewrite last_cons_cons. apply Hlast.
Qed.

Lemma drop_trailing_head (s : jstring) (c : N) :
  head (drop_trailing s) = Some c -> head s = Some c.
Proof.
  destruct s as [|d s]; simpl; [discriminate |].
  destruct (is_ws d && forallb is_ws s); [discriminate | trivial].
Qed.

(** [s.replace(/^\s+|\s+$/g, "")] is [s] trimmed at both ends. *)
Lemma replace_trim_spec (s : jstring) : trimmed_of s (replace_trim s).
Proof.
  unfold replace_trim.
  destruct (drop_leading_split s) as (pre & Hs & Hpre & Hhd).
  destruct (drop_trailing_split (drop_leading s)) as (post & Hm & Hpost & Hlast).
  exists pre, post. split; [rewrite <- Hm; exact Hs |].
  split; [exact Hpre |]. split; [exact Hpost |]. split; [| exact Hlast].
  intros c Hc. apply Hhd. apply drop_trailing_head. exact Hc.
Qed.

End JSFacts.

(** * Facts about the IRC verbs *)

Module IrcFacts.
Import JS JSFacts Irc.

(** ** Free identifiers of [index.js] *)

Lemma err_unbound : free_identifier (lit "err") = Throw (ReferenceError (lit "err")).
Proof. reflexivity. Qed.

Lemma job_unbound : free_identifier (lit "job") = Throw (ReferenceError (lit "job")).
Proof. reflexivity. Qed.

Lemma promise_unbound :
  free_identifier (lit "promise") = Throw (ReferenceError (lit "promise")).
Proof. reflexivity. Qed.

Lemma leave_method_missing : prototype_method (lit "_leave") = None.
Proof. reflexivity. Qed.

(** ** Statements that leave [_channels] alone *)

Lemma keeps_ret {A} (a : A) : keeps_channels (mret a).
Proof. intros w. reflexivity. Qed.

Lemma keeps_bind {A B} (m : M A) (f : A -> M B) :
  keeps_channels m -> (forall a, keeps_channels (f a)) -> keeps_channels (m ≫= f).
Proof.
  intros Hm Hf w. unfold mbind, M_bind. specialize (Hm w).
  destruct (m w) as [[a|e] w1]; simpl in *; [| exact Hm].
  rewrite Hf. exact Hm.
Qed.

Lemma keeps_lift {A} (c : completion A) : keeps_channels (lift c).
Proof. intros w. reflexivity. Qed.

Lemma keeps_get : keeps_channels get_world.
Proof. intros w. reflexivity. Qed.

Lemma keeps_emit (e : effect) : keeps_channels (emit e).
Proof. intros w. reflexivity. Qed.

Lemma keeps_set_store s : keeps_channels (set_store s).
Proof. intros w. reflexivity. Qed.

Lemma keeps_set_pool p : keeps_channels (set_pool p).
Proof. intros w. reflexivity. Qed.

Create HintDb keeps.
#[local] Hint Resolve keeps_ret keeps_lift keeps_get keeps_emit keeps_set_store
  keeps_set_pool : keeps.

Ltac keeps :=
  repeat first
    [ solve [auto with keeps]
    | apply keeps_bind; [| intros ?]
    | match goal with
      | |- keeps_channels (if ?b then _ else _) => destruct b
      | |- keeps_channels (match ?x with _ => _ end) => destruct x
      end ].

(** Reading [job.target.displayName] where no [job] is in scope throws, and
    changes nothing. *)
Lemma free_job_throws (w : world) :
  free_job_target_displayName w = (Throw (ReferenceError (lit "job")), w).
Proof. reflexivity. Qed.

Lemma joined_throws (channel : jstring) (w : world) :
  _joined channel w = (Throw (ReferenceError (lit "job")), w).
Proof. reflexivity. Qed.

Lemma left_throws (channel : jstring) (w : world) :
  _left channel w = (Throw (ReferenceError (lit "job")), w).
Proof. reflexivity. Qed.

Lemma keeps_isJoined ch : keeps_channels (_isJoined ch).
Proof. unfold _isJoined. keeps. Qed.

Lemma keeps_joined ch : keeps_channels (_joined ch).
Proof. intros w. rewrite joined_throws. reflexivity. Qed.

Lemma keeps_left ch : keeps_channels (_left ch).
Proof. intros w. rewrite left_throws. reflexivity. Qed.

#[local] Hint Resolve keeps_isJoined keeps_joined keeps_left : keeps.

Lemma keeps_prototype_method m f ch :
  prototype_method m = Some f -> keeps_channels (f ch).
Proof.
  unfold prototype_method.
  repeat match goal with
         | |- context [if ?b then _ else _] => destruct b
         end; intros [= <-]; keeps.
Qed.

Lemma keeps_call_self m ch : keeps_channels (call_self m ch).
Proof.
  unfold call_self. destruct (prototype_method m) as [f|] eqn:Hm.
  - apply (keeps_prototype_method m f ch Hm).
  - apply keeps_lift.
Qed.

Lemma keeps_done a : keeps_channels (done a).
Proof. apply keeps_emit. Qed.

Lemma keeps_raw c cmd : keeps_channels (raw c cmd).
Proof. apply keeps_emit. Qed.

Lemma keeps_setConfig kind k c : keeps_channels (setConfig kind k c).
Proof. unfold setConfig. keeps. Qed.

Lemma keeps_move a b c d : keeps_channels (move a b c d).
Proof. unfold move. keeps. Qed.

#[local] Hint Resolve keeps_call_self keeps_done keeps_raw keeps_setConfig
  keeps_move : keeps.

Lemma keeps_join_fulfilled j c : keeps_channels (join_fulfilled j c).
Proof. unfold join_fulfilled. keeps. Qed.

Lemma keeps_leave_fulfilled j c : keeps_channels (leave_fulfilled j c).
Proof. unfold leave_fulfilled. keeps. Qed.

Lemma keeps_send_fulfilled j c : keeps_channels (send_fulfilled j c).
Proof. unfold send_fulfilled. keeps. Qed.

Lemma keeps_update_fulfilled j c : keeps_channels (update_fulfilled j c).
Proof. unfold update_fulfilled. keeps. Qed.

Lemma keeps_observe_fulfilled j c : keeps_channels (observe_fulfilled j c).
Proof. unfold observe_fulfilled. keeps. Qed.

Lemma keeps_done_with r : keeps_channels (done_with r).
Proof. apply keeps_done. Qed.

(** ** Promise plumbing *)

Lemma settle_channels (h : M unit) (w : world) :
  keeps_channels h -> _channels (snd (settle h w)) = _channels w.
Proof.
  intros Hh. unfold settle. specialize (Hh w).
  destruct (h w) as [[a|e] w1]; exact Hh.
Qed.

Lemma then_channels {A} (p : promise A * world) onF onR :
  (forall a, keeps_channels (onF a)) ->
  (forall h, onR = Some h -> forall r, keeps_channels (h r)) ->
  _channels (snd (then_ p onF onR)) = _channels (snd p).
Proof.
  intros HF HR. destruct p as [[a|r|] w]; simpl; [| | reflexivity].
  - apply settle_channels, HF.
  - destruct onR as [h|]; [| reflexivity].
    apply settle_channels. exact (HR h eq_refl r).
Qed.

Lemma catch_channels (p : promise unit * world) onR :
  (forall r, keeps_channels (onR r)) ->
  _channels (snd (catch_ p onR)) = _channels (snd p).
Proof.
  intros HR. destruct p as [[a|r|] w]; simpl; [reflexivity | | reflexivity].
  apply settle_channels, HR.
Qed.

Lemma dropped_channels (p : promise unit * world) :
  _channels (dropped p) = _channels (snd p).
Proof. destruct p as [[a|r|] w]; reflexivity. Qed.

(** ** [_getClient] *)

Lemma createClient_channels k creds w :
  _channels (snd (_createClient k creds w)) = _channels w.
Proof.
  unfold _createClient.
  destruct (pool_create _ _ _ _) as [[[e|] [c|]] p']; reflexivity.
Qed.

Lemma getClient_channels j create w :
  _channels (snd (_getClient j create w)) = _channels w.
Proof.
  unfold _getClient. destruct (store w !! id (actor j)) as [creds|].
  - destruct (pool_get _ _ _); [reflexivity |].
    destruct (default true create); [apply createClient_channels | reflexivity].
  - rewrite promise_unbound. reflexivity.
Qed.

Lemma createClient_trace k creds w :
  trace (snd (_createClient k creds w)) = trace w.
Proof.
  unfold _createClient.
  destruct (pool_create _ _ _ _) as [[[e|] [c|]] p']; reflexivity.
Qed.

(** A resolved client costs no observable operation, and the pool holds its
    entry under the client's key. *)
Lemma getClient_fulfilled j create w c w' :
  _getClient j create w = (Fulfilled c, w') ->
  trace w' = trace w /\ _channels w' = _channels w /\ store w' = store w /\
  pool w' !! key c =
    Some {| entry_credentials := client_credentials c;
            entry_handle := connection c |}.
Proof.
  unfold _getClient. destruct (store w !! id (actor j)) as [creds|].
  - unfold pool_get. destruct (pool w !! id (actor j)) as [e|] eqn:He; simpl.
    + intros [= <- <-]. repeat split; try reflexivity.
      simpl. rewrite He. destruct e; reflexivity.
    + destruct (default true create); [| discriminate].
      unfold _createClient, pool_create.
      destruct (pool w !! cred_id (cred_actor_of creds)) as [e|] eqn:He'.
      * simpl. intros [= <- <-]. repeat split; try reflexivity.
        simpl. rewrite He'. destruct e; reflexivity.
      * destruct (backend w (id (actor j))); simpl; try discriminate.
        intros [= <- <-]. repeat split; try reflexivity.
        simpl. apply lookup_insert_eq.
  - rewrite promise_unbound. discriminate.
Qed.

(** ** Running the verbs on a resolved client *)

Lemma isJoined_run (ch : jstring) (w : world) :
  _isJoined ch w =
  (Normal (if starts_with_hash ch then bool_decide (ch ∈ _channels w) else true), w).
Proof.
  unfold _isJoined, mbind, M_bind, get_world.
  rewrite indexOf_hash_zero. destruct (starts_with_hash ch); [| reflexivity].
  rewrite arr_indexOf_found. destruct (bool_decide _); reflexivity.
Qed.

Lemma callbacks_app (t u : list effect) :
  callbacks (t ++ u) = callbacks t ++ callbacks u.
Proof. apply omap_app. Qed.

Lemma backend_commands_app (t u : list effect) :
  backend_commands (t ++ u) = backend_commands t ++ backend_commands u.
Proof. apply omap_app. Qed.

Lemma join_run j w w' c :
  _getClient j None w = (Fulfilled c, w') ->
  join j w = snd (emit (Unhandled (EThrown (ReferenceError (lit "err")))) w').
Proof. intros Hc. unfold join. rewrite Hc. reflexivity. Qed.

Lemma leave_run j w w' c :
  _getClient j None w = (Fulfilled c, w') ->
  leave j w =
  snd (emit (Unhandled (EThrown (TypeError (lit "self._leave is not a function"))))
         (snd (raw c [lit "PART"; target_displayName (target j)] w'))).
Proof. intros Hc. unfold leave. rewrite Hc. reflexivity. Qed.

Lemma send_run j w w' c :
  _getClient j None w = (Fulfilled c, w') ->
  send j w =
  if starts_with_hash (target_displayName (target j))
     && negb (bool_decide (target_displayName (target j) ∈ _channels w'))
  then snd (done (Some (EValue (JStr not_joined_message))) w')
  else snd (done None
              (snd (raw c [lit "PRIVMSG"; target_displayName (target j);
                           replace_trim (content (object j))] w'))).
Proof.
  intros Hc. unfold send. rewrite Hc. cbn [then_ catch_].
  unfold settle, send_fulfilled, mbind, M_bind. rewrite isJoined_run.
  destruct (starts_with_hash _); [destruct (bool_decide _) |]; reflexivity.
Qed.

Lemma update_address_run j w w' c :
  _getClient j None w = (Fulfilled c, w') ->
  objectType (object j) = lit "address" ->
  let dn := target_displayName (target j) in
  let newCreds := renamed (client_credentials c) dn in
  let newKey := concat dn (concat (lit "@") (server (cred_object_of (client_credentials c)))) in
  update j w =
  {| _channels := _channels w;
     store := <[dn := newCreds]> (store w);
     pool := <[newKey := {| entry_credentials := newCreds;
                            entry_handle := connection c |}]>
               (delete (key c) (pool w'));
     backend := backend w';
     trace := trace w ++
       [Raw (connection c) [lit "NICK"; dn];
        SetConfig (lit "credentials") dn newCreds;
        Move (key c) (client_credentials c) newKey newCreds;
        Done None] |}.
Proof.
  intros Hc Hty dn newCreds newKey.
  destruct (getClient_fulfilled _ _ _ _ _ Hc) as (Ht & Hch & Hst & Hpool).
  unfold update. rewrite Hc. cbn [then_].
  unfold settle, update_fulfilled. rewrite Hty.
  change (jstring_eqb (lit "address") (lit "address")) with true. cbv iota.
  unfold mbind, M_bind, raw, setConfig, move, done, emit, get_world, set_store,
    set_pool, lift, mbind, M_bind. cbn.
  unfold pool_move. rewrite Hpool. cbn [entry_credentials entry_handle].
  rewrite decide_True by reflexivity. cbn.
  rewrite Ht, Hch, Hst, <- !app_assoc. reflexivity.
Qed.

Lemma update_other_run j w w' c :
  _getClient j None w = (Fulfilled c, w') ->
  objectType (object j) <> lit "address" ->
  objectType (object j) <> lit "topic" ->
  update j w = snd (done None w').
Proof.
  intros Hc Ha Ht. unfold update. rewrite Hc. cbn [then_].
  unfold settle, update_fulfilled.
  apply jstring_eqb_neq in Ha, Ht. rewrite Ha, Ht. reflexivity.
Qed.

Lemma trace_emit e w : trace (snd (emit e w)) = trace w ++ [e].
Proof. reflexivity. Qed.

(** ** The completion callback *)

(** C1, at the code: once the connection is resolved, [join] and [leave] end
    in an unhandled rejection and never invoke the completion callback.
    [join] stops at the unbound [err] before any backend command; [leave]
    issues PART and stops at the undefined method [_leave]. *)
Theorem join_and_leave_never_call_back (j : job) (w w' : world) (c : client) :
  _getClient j None w = (Fulfilled c, w') ->
  trace (join j w) =
    trace w ++ [Unhandled (EThrown (ReferenceError (lit "err")))] /\
  trace (leave j w) =
    trace w ++ [Raw (connection c) [lit "PART"; target_displayName (target j)];
                Unhandled (EThrown (TypeError (lit "self._leave is not a function")))] /\
  callbacks (trace (join j w)) = callbacks (trace w) /\
  callbacks (trace (leave j w)) = callbacks (trace w).
Proof.
  intros Hc. destruct (getClient_fulfilled _ _ _ _ _ Hc) as (Ht & _).
  assert (Hj : trace (join j w) =
               trace w ++ [Unhandled (EThrown (ReferenceError (lit "err")))]).
  { rewrite (join_run _ _ _ _ Hc), trace_emit, Ht. reflexivity. }
  assert (Hl : trace (leave j w) =
               trace w ++ [Raw (connection c) [lit "PART"; target_displayName (target j)];
                           Unhandled (EThrown (TypeError (lit "self._leave is not a function")))]).
  { rewrite (leave_run _ _ _ _ Hc), trace_emit. unfold raw.
    rewrite trace_emit, Ht, <- app_assoc. reflexivity. }
  repeat split; [exact Hj | exact Hl | |].
  - rewrite Hj, callbacks_app. cbn. apply app_nil_r.
  - rewrite Hl, callbacks_app. cbn. apply app_nil_r.
Qed.

Lemma join_and_leave_never_call_back_witness :
  let j := sample_job "alice" "irc.host.net" "#room" "" "" in
  callbacks (trace (join j alice_world)) = [] /\
  callbacks (trace (leave j alice_world)) = [].
Proof.
  intros j.
  destruct (join_and_leave_never_call_back j alice_world
              (snd (_getClient j None alice_world))
              {| key := lit "irc://alice@irc.host.net";
                 client_credentials := sample_creds "alice" "irc.host.net";
                 connection := 7%nat |} eq_refl)
    as (_ & _ & Hj & Hl).
  split; [exact Hj | exact Hl].
Defined.

(** The sibling verbs do call back exactly once on a resolved client. *)
Lemma send_calls_back_once j w w' c :
  _getClient j None w = (Fulfilled c, w') ->
  exists arg, callbacks (trace (send j w)) = callbacks (trace w) ++ [arg].
Proof.
  intros Hc. destruct (getClient_fulfilled _ _ _ _ _ Hc) as (Ht & _).
  rewrite (send_run _ _ _ _ Hc).
  destruct (_ && _).
  - eexists. unfold done. rewrite trace_emit, callbacks_app, Ht. reflexivity.
  - eexists. unfold done, raw. rewrite !trace_emit, !callbacks_app, Ht.
    cbn. rewrite app_nil_r. reflexivity.
Qed.

Lemma observe_run j w w' c :
  _getClient j None w = (Fulfilled c, w') ->
  observe j w =
  if jstring_eqb (objectType (object j)) (lit "attendance")
  then snd (done None (snd (raw c [lit "NAMES"; target_displayName (target j)] w')))
  else snd (done (Some (EValue (JStr (concat (lit "unknown objectType '")
                                        (concat (objectType (object j)) (lit "'"))))))
              w').
Proof.
  intros Hc. unfold observe. rewrite Hc. cbn [then_].
  unfold settle, observe_fulfilled. destruct (jstring_eqb _ _); reflexivity.
Qed.

Lemma observe_calls_back_once j w w' c :
  _getClient j None w = (Fulfilled c, w') ->
  exists arg, callbacks (trace (observe j w)) = callbacks (trace w) ++ [arg].
Proof.
  intros Hc. destruct (getClient_fulfilled _ _ _ _ _ Hc) as (Ht & _).
  rewrite (observe_run _ _ _ _ Hc). destruct (jstring_eqb _ _).
  - eexists. unfold done, raw. rewrite !trace_emit, !callbacks_app, Ht.
    cbn. rewrite app_nil_r. reflexivity.
  - eexists. unfold done. rewrite trace_emit, callbacks_app, Ht. reflexivity.
Qed.

Lemma update_topic_run j w w' c :
  _getClient j None w = (Fulfilled c, w') ->
  objectType (object j) = lit "topic" ->
  update j w =
  snd (done None
         (snd (raw c [lit "topic"; target_displayName (target j); topic (object j)] w'))).
Proof.
  intros Hc Hty. unfold update. rewrite Hc. cbn [then_].
  unfold settle, update_fulfilled. rewrite Hty. reflexivity.
Qed.

Lemma update_calls_back_once j w w' c :
  _getClient j None w = (Fulfilled c, w') ->
  callbacks (trace (update j w)) = callbacks (trace w) ++ [None].
Proof.
  intros Hc. destruct (getClient_fulfilled _ _ _ _ _ Hc) as (Ht & _).
  destruct (decide (objectType (object j) = lit "address")) as [Ha | Ha].
  - rewrite (update_address_run _ _ _ _ Hc Ha). cbn [trace].
    rewrite callbacks_app. reflexivity.
  - destruct (decide (objectType (object j) = lit "topic")) as [Hto | Hto].
    + rewrite (update_topic_run _ _ _ _ Hc Hto). unfold done, raw.
      rewrite !trace_emit, !callbacks_app, Ht. cbn. rewrite app_nil_r. reflexivity.
    + rewrite (update_other_run _ _ _ _ Hc Ha Hto). unfold done.
      rewrite trace_emit, callbacks_app, Ht. reflexivity.
Qed.

(** When the connection cannot be resolved every verb hands the reason to
    the callback, once. *)
Lemma rejected_calls_back_once v j w w' r :
  _getClient j None w = (Rejected r, w') ->
  trace (dispatch v j w) = trace w' ++ [Done (Some r)].
Proof.
  intros Hc. destruct v; simpl; unfold update, join, leave, send, observe;
    rewrite Hc; reflexivity.
Qed.

(** When the credential store answers with an error, the store callback
    throws on the unbound [promise]; the verb's promise never settles and the
    callback is never invoked. *)
Lemma store_error_never_calls_back v j w :
  store w !! id (actor j) = None ->
  trace (dispatch v j w) =
  trace w ++ [Uncaught (ReferenceError (lit "promise"))].
Proof.
  intros Hs.
  assert (Hc : _getClient j None w =
               (Pending, snd (emit (Uncaught (ReferenceError (lit "promise"))) w))).
  { unfold _getClient. rewrite Hs. reflexivity. }
  destruct v; simpl; unfold update, join, leave, send, observe;
    rewrite Hc; reflexivity.
Qed.

(** ** Sending *)




(** ** Joining *)

(** C3, at the code: a [join] on a resolved connection leaves [_channels] as
    it was, issues no backend command and does not call back: the fulfilment
    handler throws at its first statement, before JOIN is sent and before
    [_joined] is reached. *)
Theorem join_records_no_membership (j : job) (w w' : world) (c : client) :
  _getClient j None w = (Fulfilled c, w') ->
  _channels (join j w) = _channels w /\
  backend_commands (trace (join j w)) = backend_commands (trace w) /\
  callbacks (trace (join j w)) = callbacks (trace w).
Proof.
  intros Hc. destruct (getClient_fulfilled _ _ _ _ _ Hc) as (Ht & Hch & _).
  rewrite (join_run _ _ _ _ Hc), trace_emit, Ht.
  split; [exact Hch |].
  rewrite backend_commands_app, callbacks_app. cbn. rewrite !app_nil_r.
  split; reflexivity.
Qed.

Lemma join_records_no_membership_witness :
  let j := sample_job "alice" "irc.host.net" "#room" "" "" in
  is_Some (pool (join j alice_world) !! lit "irc://alice@irc.host.net") /\
  _channels (join j alice_world) = [] /\
  backend_commands (trace (join j alice_world)) = [] /\
  callbacks (trace (join j alice_world)) = [].
Proof.
  intros j. split; [eexists; vm_compute; reflexivity |].
  exact (join_records_no_membership j alice_world
           (snd (_getClient j None alice_world))
           {| key := lit "irc://alice@irc.host.net";
              client_credentials := sample_creds "alice" "irc.host.net";
              connection := 7%nat |} eq_refl).
Defined.

(** ** Renaming *)

(** The key under which [update] persists the new credentials is not the
    key it moves the pool entry to: the credentials go under the bare new
    nick, the pool entry under nick@server. *)
Lemma update_address_store_key_is_not_pool_key :
  ~ exists k kind creds oldKey oldCreds newCreds,
      SetConfig kind k creds ∈ trace (update alice_rename alice_world) /\
      Move oldKey oldCreds k newCreds ∈ trace (update alice_rename alice_world).
Proof.
  intros (k & kind & creds & oldKey & oldCreds & newCreds & Hset & Hmove).
  rewrite (update_address_run alice_rename alice_world
             (snd (_getClient alice_rename None alice_world))
             {| key := lit "irc://alice@irc.host.net";
                client_credentials := sample_creds "alice" "irc.host.net";
                connection := 7%nat |} eq_refl eq_refl) in Hset, Hmove.
  cbn [trace] in Hset, Hmove.
  change (trace alice_world) with (@nil effect) in Hset, Hmove.
  rewrite app_nil_l in Hset, Hmove.
  rewrite !elem_of_cons, elem_of_nil in Hset, Hmove.
  destruct Hset as [? | [Hset | [? | [? | []]]]]; try discriminate.
  destruct Hmove as [? | [? | [Hmove | [? | []]]]]; try discriminate.
  injection Hset as _ Hk _. injection Hmove as _ _ Hk' _.
  rewrite Hk in Hk'. vm_compute in Hk'. discriminate.
Qed.

(** What [update] does on a resolved connection: for the object type
    [address] it issues NICK, persists the renamed credentials under the
    bare new nick, and moves the pool entry from the client's key to
    nick@server with the renamed credentials and the same handle, then calls
    back with success; for an object type that is neither [address] nor
    [topic] it only calls back with success. *)
Theorem update_renames_or_does_nothing (j : job) (w w' : world) (c : client) :
  _getClient j None w = (Fulfilled c, w') ->
  let dn := target_displayName (target j) in
  let newCreds := renamed (client_credentials c) dn in
  let newKey := dn ++ lit "@" ++ server (cred_object_of (client_credentials c)) in
  (objectType (object j) = lit "address" ->
     trace (update j w) =
       trace w ++ [Raw (connection c) [lit "NICK"; dn];
                   SetConfig (lit "credentials") dn newCreds;
                   Move (key c) (client_credentials c) newKey newCreds;
                   Done None] /\
     nick (cred_object_of newCreds) = dn /\
     store (update j w) !! dn = Some newCreds /\
     pool (update j w) !! newKey =
       Some {| entry_credentials := newCreds; entry_handle := connection c |} /\
     (key c <> newKey -> pool (update j w) !! key c = None)) /\
  (objectType (object j) <> lit "address" ->
   objectType (object j) <> lit "topic" ->
     trace (update j w) = trace w ++ [Done None] /\
     backend_commands (trace (update j w)) = backend_commands (trace w)).
Proof.
  intros Hc dn newCreds newKey.
  destruct (getClient_fulfilled _ _ _ _ _ Hc) as (Ht & _). split.
  - intros Hty. rewrite (update_address_run _ _ _ _ Hc Hty).
    cbn [trace store pool]. fold dn newCreds. unfold concat. fold newKey.
    split; [reflexivity |]. split; [reflexivity |].
    split; [apply lookup_insert_eq |]. split; [apply lookup_insert_eq |].
    intros Hne. rewrite lookup_insert_ne by congruence. apply lookup_delete_eq.
  - intros Ha Htopic. rewrite (update_other_run _ _ _ _ Hc Ha Htopic).
    unfold done. rewrite trace_emit, Ht. split; [reflexivity |].
    rewrite backend_commands_app. cbn. apply app_nil_r.
Qed.

Lemma update_renames_or_does_nothing_witness :
  store (update alice_rename alice_world) !! lit "alice2" =
    Some (renamed (sample_creds "alice" "irc.host.net") (lit "alice2")) /\
  pool (update alice_rename alice_world) !! lit "alice2@irc.host.net" =
    Some {| entry_credentials :=
              renamed (sample_creds "alice" "irc.host.net") (lit "alice2");
            entry_handle := 7%nat |} /\
  pool (update alice_rename alice_world) !! lit "irc://alice@irc.host.net" = None /\
  trace (update (sample_job "alice" "irc.host.net" "#room" "mood" "") alice_world) =
    [Done None].
Proof.
  destruct (update_renames_or_does_nothing alice_rename alice_world
              (snd (_getClient alice_rename None alice_world))
              {| key := lit "irc://alice@irc.host.net";
                 client_credentials := sample_creds "alice" "irc.host.net";
                 connection := 7%nat |} eq_refl) as (Haddr & _).
  destruct (Haddr eq_refl) as (_ & _ & Hstore & Hpool & Hold).
  split; [exact Hstore |]. split; [exact Hpool |].
  split; [apply Hold; vm_compute; discriminate |].
  pose (j := sample_job "alice" "irc.host.net" "#room" "mood" "").
  destruct (update_renames_or_does_nothing j alice_world
              (snd (_getClient j None alice_world))
              {| key := lit "irc://alice@irc.host.net";
                 client_credentials := sample_creds "alice" "irc.host.net";
                 connection := 7%nat |} eq_refl) as (_ & Hother).
  apply Hother; vm_compute; discriminate.
Defined.

(** C8, at the code: the rename re-keys the identity under keys no lookup
    uses. [_getClient] and [_createClient] find credentials and pool entry
    under the actor id (irc://nick@server); [update] persists the renamed
    credentials under the bare nick and moves the pool entry to nick@server.
    After [alice] is renamed to [alice2] on a fresh adapter, neither the
    store nor the pool holds anything under irc://alice2@irc.host.net: a job
    of the renamed identity finds no credentials and never calls back, and a
    job of the old identity finds no pool entry and registers a second
    connection beside the moved one. *)
Theorem rename_strands_the_connection :
  let w := update alice_rename alice_world in
  let new_id := lit "irc://alice2@irc.host.net" in
  let old_id := lit "irc://alice@irc.host.net" in
  let renamed_job := sample_job "alice2" "irc.host.net" "bob" "message" "hi" in
  let old_job := sample_job "alice" "irc.host.net" "bob" "message" "hi" in
  (* where the rename wrote *)
  (store w !! lit "alice2" =
     Some (renamed (sample_creds "alice" "irc.host.net") (lit "alice2")) /\
   pool w !! lit "alice2@irc.host.net" =
     Some {| entry_credentials :=
               renamed (sample_creds "alice" "irc.host.net") (lit "alice2");
             entry_handle := 7%nat |}) /\
  (* where the next job looks *)
  (id (actor renamed_job) = new_id /\
   store w !! new_id = None /\ pool w !! new_id = None /\
   pool w !! old_id = None) /\
  (* a job of the renamed identity hangs *)
  (trace (send renamed_job w) =
     trace w ++ [Uncaught (ReferenceError (lit "promise"))] /\
   callbacks (trace (send renamed_job w)) = callbacks (trace w)) /\
  (* a job of the old identity connects again *)
  (pool (send old_job w) !! old_id =
     Some {| entry_credentials := sample_creds "alice" "irc.host.net";
             entry_handle := 7%nat |} /\
   is_Some (pool (send old_job w) !! lit "alice2@irc.host.net")).
Proof.
  intros w new_id old_id renamed_job old_job.
  assert (Hw : w =
    {| _channels := _channels alice_world;
       store := <[lit "alice2" :=
                    renamed (sample_creds "alice" "irc.host.net") (lit "alice2")]>
                  (store alice_world);
       pool := <[lit "alice2@irc.host.net" :=
                   {| entry_credentials :=
                        renamed (sample_creds "alice" "irc.host.net") (lit "alice2");
                      entry_handle := 7%nat |}]>
                 (delete old_id (pool (snd (_getClient alice_rename None alice_world))));
       backend := backend (snd (_getClient alice_rename None alice_world));
       trace := trace alice_world ++
         [Raw 7%nat [lit "NICK"; lit "alice2"];
          SetConfig (lit "credentials") (lit "alice2")
            (renamed (sample_creds "alice" "irc.host.net") (lit "alice2"));
          Move old_id (sample_creds "alice" "irc.host.net")
            (lit "alice2@irc.host.net")
            (renamed (sample_creds "alice" "irc.host.net") (lit "alice2"));
          Done None] |}).
  { exact (update_address_run alice_rename alice_world
             (snd (_getClient alice_rename None alice_world))
             {| key := lit "irc://alice@irc.host.net";
                client_credentials := sample_creds "alice" "irc.host.net";
                connection := 7%nat |} eq_refl eq_refl). }
  assert (Hnew : store w !! new_id = None) by (rewrite Hw; vm_compute; reflexivity).
  split; [split; rewrite Hw; vm_compute; reflexivity |].
  split.
  { split; [reflexivity |]. split; [exact Hnew |].
    split; rewrite Hw; vm_compute; reflexivity. }
  split.
  { assert (Hc : _getClient renamed_job None w =
                 (Pending, snd (emit (Uncaught (ReferenceError (lit "promise"))) w))).
    { unfold _getClient.
      change (id (actor renamed_job)) with new_id. rewrite Hnew. reflexivity. }
    unfold send. rewrite Hc. cbn [then_ catch_ dropped]. rewrite trace_emit.
    split; [reflexivity |]. rewrite callbacks_app. cbn. apply app_nil_r. }
  split; [| eexists]; rewrite Hw; vm_compute; reflexivity.
Qed.

(** ** Membership *)

Lemma join_channels j w : _channels (join j w) = _channels w.
Proof.
  unfold join. rewrite dropped_channels, then_channels, getClient_channels;
    [reflexivity | apply keeps_join_fulfilled |].
  intros h [= <-]. apply keeps_done_with.
Qed.

Lemma leave_channels j w : _channels (leave j w) = _channels w.
Proof.
  unfold leave. rewrite dropped_channels, then_channels, getClient_channels;
    [reflexivity | apply keeps_leave_fulfilled |].
  intros h [= <-]. apply keeps_done_with.
Qed.

Lemma send_channels j w : _channels (send j w) = _channels w.
Proof.
  unfold send.
  rewrite dropped_channels, catch_channels, then_channels, getClient_channels;
    [reflexivity | apply keeps_send_fulfilled | discriminate | apply keeps_done_with].
Qed.

Lemma update_channels j w : _channels (update j w) = _channels w.
Proof.
  unfold update. rewrite dropped_channels, then_channels, getClient_channels;
    [reflexivity | apply keeps_update_fulfilled |].
  intros h [= <-]. apply keeps_done_with.
Qed.

Lemma observe_channels j w : _channels (observe j w) = _channels w.
Proof.
  unfold observe. rewrite dropped_channels, then_channels, getClient_channels;
    [reflexivity | apply keeps_observe_fulfilled |].
  intros h [= <-]. apply keeps_done_with.
Qed.

Lemma dispatch_channels v j w : _channels (dispatch v j w) = _channels w.
Proof.
  destruct v; simpl.
  - apply update_channels.
  - apply join_channels.
  - apply leave_channels.
  - apply send_channels.
  - apply observe_channels.
Qed.

Lemma step_channels w w' : step w w' -> _channels w' = _channels w.
Proof.
  intros Hs. inversion Hs; subst.
  - apply dispatch_channels.
  - reflexivity.
  - eapply keeps_prototype_method; eassumption.
  - reflexivity.
Qed.

Lemma reachable_channels w : reachable w -> _channels w = [].
Proof.
  induction 1 as [st pl be | w w' _ IH Hs]; [reflexivity |].
  rewrite (step_channels _ _ Hs). exact IH.
Qed.

(** C10: in every reachable state of the adapter [_channels] is empty; the
    one routine that pushes, [_joined], throws on the unbound [job] before
    it pushes; and the membership check answers true exactly for the targets
    that do not start with ['#']. *)
Theorem membership_is_always_empty (w : world) :
  reachable w ->
  _channels w = [] /\
  (forall ch, _joined ch w = (Throw (ReferenceError (lit "job")), w)) /\
  (forall ch, _isJoined ch w = (Normal (negb (starts_with_hash ch)), w)).
Proof.
  intros Hr. pose proof (reachable_channels w Hr) as Hch.
  split; [exact Hch |]. split; [intros ch; apply joined_throws |].
  intros ch. rewrite isJoined_run, Hch.
  destruct (starts_with_hash ch); [| reflexivity].
  rewrite bool_decide_eq_false_2 by apply not_elem_of_nil. reflexivity.
Qed.

Lemma membership_is_always_empty_witness :
  let w := send (sample_job "alice" "irc.host.net" "#room" "message" "hi")
             (join (sample_job "alice" "irc.host.net" "#room" "" "") alice_world) in
  _channels w = [] /\
  fst (_isJoined (lit "#room") w) = Normal false /\
  fst (_isJoined (lit "bob") w) = Normal true.
Proof.
  intros w.
  assert (Hr : reachable w).
  { apply reachable_step with
      (w := join (sample_job "alice" "irc.host.net" "#room" "" "") alice_world).
    - apply reachable_step with (w := alice_world).
      + apply reachable_new.
      + apply (step_dispatch Join).
    - apply (step_dispatch Send). }
  destruct (membership_is_always_empty w Hr) as (Hch & _ & Hj).
  split; [exact Hch |].
  split; [rewrite (Hj (lit "#room")) | rewrite (Hj (lit "bob"))]; reflexivity.
Defined.

End IrcFacts.

(** * Facts about the IRC event translator *)

Module ListenerFacts.
Import JS IrcListener.

Lemma Tr_ret_bind {E A B} (a : A) (f : A -> Tr E B) : (mret a ≫= f) = f a.
Proof. unfold mbind, Tr_bind, mret, Tr_ret. destruct (f a); reflexivity. Qed.

Lemma Tr_bind_ext {E A B} (m : Tr E A) (f g : A -> Tr E B) :
  (forall a, f a = g a) -> (m ≫= f) = (m ≫= g).
Proof.
  intros Hfg. unfold mbind, Tr_bind. destruct m as [t [a|e]]; [| reflexivity].
  rewrite Hfg. reflexivity.
Qed.

Lemma Tr_eval_bind {E A B} (a : A) (f : A -> Tr E B) :
  (eval (Normal a) ≫= f) = f a.
Proof. apply Tr_ret_bind. Qed.

Lemma Tr_throw_bind {E A B} (e : exn) (f : A -> Tr E B) :
  (eval (Throw e) ≫= f) = eval (Throw e).
Proof. reflexivity. Qed.

(** One step through two cascades of tests that agree so far. *)
Ltac cascade :=
  first
    [ reflexivity
    | progress cbv beta iota
    | rewrite Tr_ret_bind
    | apply Tr_bind_ext; intros [|]
    | match goal with |- (if negb ?b then _ else _) = _ => destruct b end
    | match goal with |- (if ?b then _ else _) = _ => destruct b end
    | match goal with |- _ = (if ?b then _ else _) => destruct b end ].

(** C6, amended: the listener is the first-match classifier over the order
    roster snapshot, who list, topic change, identity rename, join, message,
    MOTD, mode change, disconnect/quit, part: the known-ignorable MOTD and
    mode shapes are tested before the quit and part shapes. *)
Theorem listener_follows_its_precedence (object : event) :
  listener object = first_match listener_precedence object.
Proof.
  unfold listener, listener_precedence.
  cbn [first_match test translate].
  repeat cascade.
Qed.

(** C6 as stated fails: on a mode change that carries a nick and no target
    the listener sends nothing, where the order of section 4.3 tests the
    quit shape first and sends a [leave]. *)
Lemma listener_tests_mode_before_quit :
  listener mode_event = ([], Normal tt) /\
  listener mode_event <> classify_in_spec_order mode_event.
Proof. split; [reflexivity | vm_compute; discriminate]. Qed.

(** Every event makes the listener send at most one message. *)
Lemma listener_sends_at_most_one (object : event) :
  (length (fst (listener object)) <= 1)%nat.
Proof.
  unfold listener, and_then, raw_has.
  repeat first
    [ rewrite Tr_ret_bind
    | rewrite Tr_eval_bind
    | rewrite Tr_throw_bind
    | progress cbv beta
    | match goal with
      | |- (length (fst (if ?b then _ else _)) <= 1)%nat => destruct b
      | |- (length (fst ((if ?b then _ else _) ≫= _)) <= 1)%nat => destruct b
      | |- context [call_indexOf ?v ?s] => destruct (call_indexOf v s)
      end
    | (unfold send, tell, eval, mret, Tr_ret; cbn [fst length]; lia) ].
Qed.

(** An event that names a channel and has no [raw] makes the listener throw
    while it tests the join shape. *)
Lemma listener_throws_without_raw :
  listener channel_only_event =
  ([], Throw (TypeError (lit "Cannot read property 'indexOf' of undefined"))).
Proof. reflexivity. Qed.

End ListenerFacts.

(** * Facts about the XMPP handlers *)

Module XmppFacts.
Import JS Xmpp.

Lemma state_unbound :
  free_identifier (lit "state") = Throw (ReferenceError (lit "state")).
Proof. reflexivity. Qed.

(** ** Runs *)

Lemma bind_fst {E A B} (m : Tr E A) (f : A -> Tr E B) :
  fst (m ≫= f) =
  fst m ++ match snd m with Normal a => fst (f a) | Throw _ => [] end.
Proof.
  unfold mbind, Tr_bind. destruct m as [t [a|e]]; simpl.
  - destruct (f a); reflexivity.
  - symmetry. apply app_nil_r.
Qed.

Lemma silent_ret {A} (a : A) : silent (mret a).
Proof. reflexivity. Qed.

Lemma silent_eval {A} (c : completion A) : silent (eval c).
Proof. reflexivity. Qed.

Lemma silent_bind {A B} (m : Tr call A) (f : A -> Tr call B) :
  silent m -> (forall a, silent (f a)) -> silent (m ≫= f).
Proof.
  unfold silent. intros Hm Hf. rewrite bind_fst, Hm.
  destruct (snd m); [apply Hf | reflexivity].
Qed.

Lemma silent_try_catch (body : Tr call unit) handler :
  silent body -> (forall e, silent (handler e)) -> silent (try_catch body handler).
Proof.
  unfold silent, try_catch. intros Hb Hh. destruct body as [t [a|e]]; [exact Hb |].
  specialize (Hh e). destruct (handler e) as [t' r]. simpl in *. subst. reflexivity.
Qed.

Lemma silent_for_in {A} (l : list A) (body : A -> Tr call unit) :
  (forall a, silent (body a)) -> silent (for_in l body).
Proof.
  intros Hb. induction l as [|a l IH]; [reflexivity |].
  cbn [for_in]. apply silent_bind; [apply Hb | intros _; exact IH].
Qed.

(** ** The guard on a torn-down session *)

Lemma typeof_never_function (v : jsval) : typeof v <> TFunction.
Proof. destruct v; discriminate. Qed.

Lemma session_property_torn_down (s : session) (funcName : jstring) :
  torn_down s -> typeof_property (session_property s funcName) <> TFunction.
Proof.
  intros [Hd Hs]. unfold session_property.
  repeat match goal with
         | |- context [if ?b then _ else _] => destruct b
         end; try assumption; apply typeof_never_function.
Qed.

Lemma checkScope_torn_down (s : session) (funcName : jstring) (msg : jsval) :
  torn_down s -> checkScope funcName s msg = ([], Normal tt).
Proof.
  intros Ht. unfold checkScope.
  rewrite bool_decide_eq_false_2 by (apply session_property_torn_down; exact Ht).
  reflexivity.
Qed.

Section Handlers.
Context {E : Type} `{Stanza E}.
Variable roomAttendance : guard -> session -> E -> Tr call unit.

Lemma close_silent_when_torn_down g s : torn_down s -> silent (close g s).
Proof.
  intros Ht. unfold close, guard_debug, guard_sendToClient.
  repeat first
    [ rewrite (checkScope_torn_down _ _ _ Ht)
    | apply silent_bind; [| intros ?]
    | apply silent_ret | apply silent_eval ].
Qed.

Lemma error_returns_when_torn_down g s e :
  torn_down s -> error g s e = ([], Normal tt).
Proof.
  intros Ht. unfold error, guard_debug, guard_sendToClient.
  rewrite !(checkScope_torn_down _ _ _ Ht). reflexivity.
Qed.

Lemma online_silent_when_torn_down g s : torn_down s -> silent (online g s).
Proof.
  intros Ht. unfold online, guard_debug.
  repeat first
    [ rewrite (checkScope_torn_down _ _ _ Ht)
    | apply silent_bind; [| intros ?]
    | apply silent_ret | apply silent_eval ].
Qed.

Lemma roster_entry_silent_when_torn_down g s entry :
  torn_down s -> silent (roster_entry g s entry).
Proof.
  intros Ht. unfold roster_entry, guard_debug, guard_sendToClient.
  apply silent_bind; [rewrite (checkScope_torn_down _ _ _ Ht); apply silent_ret |].
  intros _.
  repeat match goal with
         | |- silent (if ?b then _ else _) => destruct b
         end;
  repeat first
    [ rewrite (checkScope_torn_down _ _ _ Ht)
    | apply silent_bind; [| intros ?]
    | apply silent_ret | apply silent_eval ].
Qed.

Lemma stanza_silent_when_torn_down g s stanza :
  torn_down s ->
  (forall st, silent (roomAttendance g s st)) ->
  silent (__stanza roomAttendance g s stanza).
Proof.
  intros Ht Hra. unfold __stanza, guard_debug, guard_sendToClient.
  destruct (attr_is stanza "type" "error").
  - destruct (error_type_and_message stanza).
    rewrite (checkScope_torn_down _ _ _ Ht). apply silent_ret.
  - destruct (is_ stanza (lit "iq")); [| apply silent_ret].
    destruct (_ && _).
    + apply silent_bind; [| intros _; apply Hra].
      rewrite (checkScope_torn_down _ _ _ Ht). apply silent_ret.
    + destruct (getChild stanza (lit "query")); [| apply silent_ret].
      apply silent_for_in. intros entry.
      apply roster_entry_silent_when_torn_down, Ht.
Qed.

(** C4: once the session is torn down, every call delegated through the
    guard returns normally without calling anything, and so no call of any
    handler reaches the session. *)
Theorem guard_is_inert_after_teardown (g : guard) (s : session) :
  torn_down s ->
  (forall funcName msg, checkScope funcName s msg = ([], Normal tt)) /\
  (forall msg, guard_debug s msg = ([], Normal tt)) /\
  (forall msg, guard_sendToClient s msg = ([], Normal tt)) /\
  silent (close g s) /\
  (forall e, error g s e = ([], Normal tt)) /\
  silent (online g s) /\
  ((forall st, silent (roomAttendance g s st)) ->
   forall stanza, silent (__stanza roomAttendance g s stanza)).
Proof.
  intros Ht.
  split; [intros f msg; apply checkScope_torn_down, Ht |].
  split; [intros msg; apply checkScope_torn_down, Ht |].
  split; [intros msg; apply checkScope_torn_down, Ht |].
  split; [apply close_silent_when_torn_down, Ht |].
  split; [intros e; apply error_returns_when_torn_down, Ht |].
  split; [apply online_silent_when_torn_down, Ht |].
  intros Hra stanza. apply stanza_silent_when_torn_down; assumption.
Qed.

(** [close] ends in a TypeError on any session, live or torn down: the guard
    object has no [connection] to disconnect. *)
Lemma close_always_throws g s : exists e, snd (close g s) = Throw e.
Proof.
  unfold close, guard_debug, guard_sendToClient, checkScope.
  repeat match goal with
         | |- context [bool_decide ?P] => destruct (bool_decide P)
         end;
  destruct (get_prop (guard_actor g) (lit "@id")) eqn:Hid;
  unfold mbind, Tr_bind, tell, mret, Tr_ret, eval; rewrite ?Hid;
  eexists; reflexivity.
Qed.

(** ** Counting the messages of a stanza *)

Lemma sent_app (t u : list call) : sent (t ++ u) = sent t ++ sent u.
Proof. apply omap_app. Qed.

Lemma sends_ret {A} (a : A) n : sends_at_most n (mret a).
Proof. unfold sends_at_most. cbn. lia. Qed.

Lemma sends_eval {A} (c : completion A) n : sends_at_most n (eval c).
Proof. unfold sends_at_most. cbn. lia. Qed.

Lemma sends_bind {A B} (m : Tr call A) (f : A -> Tr call B) a b :
  sends_at_most a m -> (forall x, sends_at_most b (f x)) ->
  sends_at_most (a + b) (m ≫= f).
Proof.
  unfold sends_at_most. intros Hm Hf.
  rewrite bind_fst, sent_app, length_app.
  destruct (snd m) as [x|e]; [specialize (Hf x); lia | cbn; lia].
Qed.

Lemma sends_debug s msg : sends_at_most 0 (guard_debug s msg).
Proof.
  unfold sends_at_most, guard_debug, checkScope.
  destruct (bool_decide _); vm_compute; lia.
Qed.

Lemma sends_sendToClient s msg : sends_at_most 1 (guard_sendToClient s msg).
Proof.
  unfold sends_at_most, guard_sendToClient, checkScope.
  destruct (bool_decide _); vm_compute; lia.
Qed.

Lemma sends_for_in {A} (l : list A) (body : A -> Tr call unit) :
  (forall a, sends_at_most 1 (body a)) ->
  sends_at_most (length l) (for_in l body).
Proof.
  intros Hb. induction l as [|a l IH]; [apply sends_ret |].
  cbn [for_in length]. apply (sends_bind _ _ 1 (length l)); [apply Hb |].
  intros _. exact IH.
Qed.

Lemma roster_entry_sends_at_most_one g s entry :
  sends_at_most 1 (roster_entry g s entry).
Proof.
  unfold roster_entry. apply (sends_bind _ _ 0 1); [apply sends_debug |].
  intros _.
  destruct (attr_is entry "subscription" "both").
  - apply (sends_bind _ _ 0 1); [apply sends_eval |].
    intros state. apply sends_sendToClient.
  - destruct (_ && _); apply sends_sendToClient.
Qed.

(** C5 as stated fails: a roster query result with two contacts makes
    [__stanza] deliver two messages for the one stanza. *)
Lemma roster_stanza_sends_two_messages :
  ~ (length (sent (fst (__stanza roomAttendance_undefined sample_guard
                          sample_session roster_two))) <= 1)%nat.
Proof. vm_compute. lia. Qed.

(** C5, amended: every IRC event makes the listener send at most one
    message; an XMPP error stanza delivers at most one message; a roster
    query result delivers at most one message for each of its items. *)
Theorem one_message_per_event_or_roster_item :
  (forall object : IrcListener.event,
     (length (fst (IrcListener.listener object)) <= 1)%nat) /\
  (forall g s (stanza : E),
     attr_is stanza "type" "error" = true ->
     sends_at_most 1 (__stanza roomAttendance g s stanza)) /\
  (forall g s (stanza query : E),
     attr_is stanza "type" "error" = false ->
     is_ stanza (lit "iq") = true ->
     attr_is stanza "id" "muc_id" && attr_is stanza "type" "result" = false ->
     getChild stanza (lit "query") = Some query ->
     sends_at_most (length (getChildren query (lit "item")))
                   (__stanza roomAttendance g s stanza)).
Proof.
  split; [exact ListenerFacts.listener_sends_at_most_one |]. split.
  - intros g s stanza Herr. unfold __stanza. rewrite Herr.
    destruct (error_type_and_message stanza). apply sends_sendToClient.
  - intros g s stanza query Herr Hiq Hmuc Hq. unfold __stanza.
    rewrite Herr, Hiq, Hmuc, Hq. apply sends_for_in.
    intros entry. apply roster_entry_sends_at_most_one.
Qed.

(** ** Error stanzas *)

Lemma error_type_and_message_spec (stanza : E) :
  error_type_and_message stanza =
  (if remote_server_not_found stanza then lit "join"
   else if is_ stanza (lit "presence") then lit "update" else lit "message",
   if remote_server_not_found stanza
   then lit "remote server not found " ++ to_str (attrs stanza (lit "from"))
   else error_text stanza).
Proof.
  unfold error_type_and_message, remote_server_not_found, error_text.
  destruct (getChild stanza (lit "error")) as [err|]; [| reflexivity].
  destruct (bool_decide _); reflexivity.
Qed.

(** C9: handling an error stanza is exactly one [sendToClient] through the
    guard, so on a live session exactly one message is delivered. Its type
    is [join] when the error element carries [remote-server-not-found], else
    [update] when the stanza is a presence, else [message]; its object is an
    error whose content is the error text (for the failed join, the text
    naming the room the stanza came from). *)
Theorem error_stanza_becomes_one_error_message (g : guard) (s : session) (stanza : E) :
  attrs stanza (lit "type") = Some (lit "error") ->
  __stanza roomAttendance g s stanza = guard_sendToClient s (error_message_of stanza) /\
  (typeof_property (sendToClient s) = TFunction ->
   __stanza roomAttendance g s stanza =
     ([Call (lit "sendToClient") (error_message_of stanza)], Normal tt)).
Proof.
  intros Hty.
  assert (Hrun : __stanza roomAttendance g s stanza =
                 guard_sendToClient s (error_message_of stanza)).
  { unfold __stanza, attr_is. rewrite Hty.
    change (strict_eq_str (of_opt (Some (lit "error"))) (lit "error")) with true.
    cbv iota. rewrite error_type_and_message_spec. reflexivity. }
  split; [exact Hrun |].
  intros Hlive. rewrite Hrun. unfold guard_sendToClient, checkScope.
  change (session_property s (lit "sendToClient")) with (sendToClient s).
  rewrite bool_decide_eq_true_2 by exact Hlive. reflexivity.
Qed.

End Handlers.

Lemma guard_is_inert_after_teardown_witness :
  torn_down (teardown sample_session) /\
  guard_sendToClient (teardown sample_session) (str "late") = ([], Normal tt) /\
  silent (close sample_guard (teardown sample_session)) /\
  silent (__stanza roomAttendance_undefined sample_guard
            (teardown sample_session) roster_two).
Proof.
  assert (Ht : torn_down (teardown sample_session)) by (split; discriminate).
  destruct (guard_is_inert_after_teardown roomAttendance_undefined sample_guard
              (teardown sample_session) Ht)
    as (_ & _ & Hsend & Hclose & _ & _ & Hstanza).
  split; [exact Ht |]. split; [apply Hsend |]. split; [exact Hclose |].
  apply Hstanza. intros st. reflexivity.
Defined.

Lemma one_message_per_event_or_roster_item_witness :
  sends_at_most 1 (__stanza roomAttendance_undefined sample_guard
                     sample_session join_failure) /\
  sends_at_most 2 (__stanza roomAttendance_undefined sample_guard
                     sample_session roster_two).
Proof.
  destruct (one_message_per_event_or_roster_item (E := node) roomAttendance_undefined)
    as (_ & Herr & Hroster).
  split.
  - apply Herr. reflexivity.
  - apply (Hroster sample_guard sample_session roster_two
             (el "query" [("xmlns", "jabber:iq:roster")]
                [ el "item" [("jid", "bob@jabber.net"); ("subscription", "none")] [];
                  el "item" [("jid", "carol@jabber.net"); ("subscription", "none")] [] ]));
      reflexivity.
Defined.

Lemma error_stanza_becomes_one_error_message_witness :
  __stanza roomAttendance_undefined sample_guard sample_session join_failure =
  ([Call (lit "sendToClient")
      (obj [("@type", str "join");
            ("actor", obj [("@id", str "room@nowhere.example/alice");
                           ("@type", str "room")]);
            ("object",
             obj [("@type", str "error");
                  ("content",
                   str "remote server not found room@nowhere.example/alice")]);
            ("target", obj [("@id", str "alice@jabber.net");
                            ("@type", str "person")])])],
   Normal tt).
Proof.
  assert (Hty : attrs join_failure (lit "type") = Some (lit "error"))
    by reflexivity.
  destruct (error_stanza_becomes_one_error_message (E := node)
              roomAttendance_undefined sample_guard sample_session join_failure
              Hty) as (_ & Hlive).
  rewrite Hlive; reflexivity.
Defined.

(** ** Events that make classification throw *)

(** C7, at the code: a roster query result with a mutual contact makes
    [__stanza] throw a ReferenceError on the unbound [state], whatever the
    session and whatever [roomAttendance] does; and an IRC event that names
    a channel and carries no [raw] makes the listener throw a TypeError. *)
Theorem classification_throws (ra : guard -> session -> node -> Tr call unit)
    (g : guard) (s : session) :
  snd (__stanza ra g s roster_both) = Throw (ReferenceError (lit "state")) /\
  sent (fst (__stanza ra g s roster_both)) = [] /\
  IrcListener.listener IrcListener.channel_only_event =
    ([], Throw (TypeError (lit "Cannot read property 'indexOf' of undefined"))).
Proof.
  split; [| split; [| reflexivity]].
  - unfold __stanza. cbn -[roster_entry lit].
    unfold roster_entry, guard_debug, checkScope.
    destruct (bool_decide _); reflexivity.
  - unfold __stanza. cbn -[roster_entry lit sent].
    unfold roster_entry, guard_debug, checkScope.
    destruct (bool_decide _); reflexivity.
Qed.

End XmppFacts.

(** * More facts about the IRC verbs *)

Module IrcMore.
Import JS JSFacts Irc IrcFacts.

(** ** What resolving the connection changes *)

Lemma createClient_store k creds w :
  store (snd (_createClient k creds w)) = store w.
Proof.
  unfold _createClient.
  destruct (pool_create _ _ _ _) as [[[e|] [c|]] p']; reflexivity.
Qed.

Lemma getClient_store j create w :
  store (snd (_getClient j create w)) = store w.
Proof.
  unfold _getClient. destruct (store w !! id (actor j)) as [creds|].
  - destruct (pool_get _ _ _); [reflexivity |].
    destruct (default true create); [apply createClient_store | reflexivity].
  - rewrite promise_unbound. reflexivity.
Qed.

Lemma getClient_rejected j create w r w' :
  _getClient j create w = (Rejected r, w') ->
  trace w' = trace w /\ pool w' = pool w /\ store w' = store w.
Proof.
  unfold _getClient. destruct (store w !! id (actor j)) as [creds|].
  - destruct (pool_get _ _ _); [discriminate |].
    destruct (default true create).
    + unfold _createClient, pool_create.
      destruct (pool w !! cred_id (cred_actor_of creds)); [discriminate |].
      destruct (backend w (id (actor j))); [discriminate | |];
        intros [= <- <-]; repeat split.
    + intros [= <- <-]. repeat split.
  - rewrite promise_unbound. discriminate.
Qed.

Lemma getClient_pending j create w w' :
  _getClient j create w = (Pending, w') ->
  store w !! id (actor j) = None /\
  w' = snd (emit (Uncaught (ReferenceError (lit "promise"))) w).
Proof.
  unfold _getClient. destruct (store w !! id (actor j)) as [creds|].
  - destruct (pool_get _ _ _); [discriminate |].
    destruct (default true create); [| discriminate].
    unfold _createClient.
    destruct (pool_create _ _ _ _) as [[[e|] [c|]] p']; discriminate.
  - rewrite promise_unbound. intros [= <-]. split; reflexivity.
Qed.

Lemma dispatch_rejected v j w r w' :
  _getClient j None w = (Rejected r, w') ->
  dispatch v j w = snd (done (Some r) w').
Proof.
  intros Hc. destruct v; simpl; unfold update, join, leave, send, observe;
    rewrite Hc; reflexivity.
Qed.

Lemma dispatch_pending v j w w' :
  _getClient j None w = (Pending, w') -> dispatch v j w = w'.
Proof.
  intros Hc. destruct v; simpl; unfold update, join, leave, send, observe;
    rewrite Hc; reflexivity.
Qed.

(** The operations one job adds to the trace. *)
Lemma dispatch_suffix v j w :
  exists suffix,
    trace (dispatch v j w) = trace w ++ suffix /\
    (length (callbacks suffix) <= 1)%nat /\
    (length (backend_commands suffix) <= 1)%nat.
Proof.
  destruct (_getClient j None w) as [[c|r|] w'] eqn:Hc.
  - destruct (getClient_fulfilled _ _ _ _ _ Hc) as (Ht & _).
    destruct v; simpl.
    + destruct (decide (objectType (object j) = lit "address")) as [Ha | Ha].
      * rewrite (update_address_run _ _ _ _ Hc Ha). cbn [trace].
        eexists. split; [reflexivity |]. split; cbn; lia.
      * destruct (decide (objectType (object j) = lit "topic")) as [Hto | Hto].
        -- rewrite (update_topic_run _ _ _ _ Hc Hto). unfold done, raw.
           rewrite !trace_emit, Ht, <- app_assoc.
           eexists. split; [reflexivity |]. split; cbn; lia.
        -- rewrite (update_other_run _ _ _ _ Hc Ha Hto). unfold done.
           rewrite trace_emit, Ht.
           eexists. split; [reflexivity |]. split; cbn; lia.
    + rewrite (join_run _ _ _ _ Hc), trace_emit, Ht.
      eexists. split; [reflexivity |]. split; cbn; lia.
    + rewrite (leave_run _ _ _ _ Hc). unfold raw.
      rewrite !trace_emit, Ht, <- app_assoc.
      eexists. split; [reflexivity |]. split; cbn; lia.
    + rewrite (send_run _ _ _ _ Hc). destruct (_ && _); unfold done, raw.
      * rewrite trace_emit, Ht.
        eexists. split; [reflexivity |]. split; cbn; lia.
      * rewrite !trace_emit, Ht, <- app_assoc.
        eexists. split; [reflexivity |]. split; cbn; lia.
    + rewrite (observe_run _ _ _ _ Hc). destruct (jstring_eqb _ _); unfold done, raw.
      * rewrite !trace_emit, Ht, <- app_assoc.
        eexists. split; [reflexivity |]. split; cbn; lia.
      * rewrite trace_emit, Ht.
        eexists. split; [reflexivity |]. split; cbn; lia.
  - destruct (getClient_rejected _ _ _ _ _ Hc) as (Ht & _).
    rewrite (dispatch_rejected _ _ _ _ _ Hc). unfold done.
    rewrite trace_emit, Ht.
    eexists. split; [reflexivity |]. split; cbn; lia.
  - destruct (getClient_pending _ _ _ _ Hc) as (_ & ->).
    rewrite (dispatch_pending _ _ _ _ Hc), trace_emit.
    eexists. split; [reflexivity |]. split; cbn; lia.
Qed.

(** X1: whatever the verb, the job and the state of the collaborators, one
    dispatched job only appends to the trace, invokes the completion
    callback at most once and issues at most one backend command. *)
Theorem one_job_one_callback_one_command (v : verb) (j : job) (w : world) :
  exists suffix,
    trace (dispatch v j w) = trace w ++ suffix /\
    (length (callbacks (trace (dispatch v j w)))
       <= length (callbacks (trace w)) + 1)%nat /\
    (length (backend_commands (trace (dispatch v j w)))
       <= length (backend_commands (trace w)) + 1)%nat.
Proof.
  destruct (dispatch_suffix v j w) as (suffix & Ht & Hcb & Hcmd).
  exists suffix. split; [exact Ht |].
  rewrite Ht, callbacks_app, backend_commands_app, !length_app. lia.
Qed.

(** ** Failures before the connection is resolved *)

(** X2: when the credentials are stored, the pool holds no entry for the
    actor, and the handshake times out or yields no client object, every
    verb reports the failure to the callback, once, issues no backend
    command, and leaves the pool, the store and the membership as they
    were. *)
Theorem connect_failure_is_reported (v : verb) (j : job) (w : world)
    (creds : credentials) :
  store w !! id (actor j) = Some creds ->
  pool w !! id (actor j) = None ->
  pool w !! cred_id (cred_actor_of creds) = None ->
  (forall h, backend w (id (actor j)) <> Registered h) ->
  trace (dispatch v j w) =
    trace w ++
    [Done (Some (match backend w (id (actor j)) with
                 | TimedOut => EConnect ConnectTimeout
                 | _ => EValue (JStr (lit "didnt receive a client object."))
                 end))] /\
  pool (dispatch v j w) = pool w /\
  store (dispatch v j w) = store w /\
  _channels (dispatch v j w) = _channels w.
Proof.
  intros Hs Hp Hp' Hb.
  assert (Hc : exists w',
             _getClient j None w =
             (Rejected (match backend w (id (actor j)) with
                        | TimedOut => EConnect ConnectTimeout
                        | _ => EValue (JStr (lit "didnt receive a client object."))
                        end), w')).
  { unfold _getClient, pool_get. rewrite Hs, Hp. cbn [fmap option_fmap option_map default].
    unfold _createClient, pool_create. rewrite Hp'.
    destruct (backend w (id (actor j))) as [h | |] eqn:Hbk.
    - exfalso. exact (Hb h eq_refl).
    - eexists. reflexivity.
    - eexists. reflexivity. }
  destruct Hc as (w' & Hc).
  destruct (getClient_rejected _ _ _ _ _ Hc) as (Ht & Hpool & Hstore).
  rewrite (dispatch_rejected _ _ _ _ _ Hc). unfold done.
  rewrite trace_emit, Ht. cbn [emit snd pool store _channels].
  split; [reflexivity |]. split; [exact Hpool |]. split; [exact Hstore |].
  rewrite <- (getClient_channels j None w), Hc. reflexivity.
Qed.

Lemma connect_failure_is_reported_witness :
  let j := sample_job "alice" "irc.host.net" "bob" "message" "hi" in
  trace (dispatch Send j silent_backend_world) =
    [Done (Some (EConnect ConnectTimeout))] /\
  trace (dispatch Observe j no_client_world) =
    [Done (Some (EValue (JStr (lit "didnt receive a client object."))))].
Proof.
  intros j. split.
  - assert (Hs : store silent_backend_world !! id (actor j) =
                 Some (sample_creds "alice" "irc.host.net")) by reflexivity.
    assert (Hp : pool silent_backend_world !! id (actor j) = None) by reflexivity.
    assert (Hp' : pool silent_backend_world
                    !! cred_id (cred_actor_of (sample_creds "alice" "irc.host.net"))
                  = None) by reflexivity.
    assert (Hb : forall h, backend silent_backend_world (id (actor j)) <> Registered h)
      by (intros h; discriminate).
    exact (proj1 (connect_failure_is_reported Send j silent_backend_world _
                    Hs Hp Hp' Hb)).
  - assert (Hs : store no_client_world !! id (actor j) =
                 Some (sample_creds "alice" "irc.host.net")) by reflexivity.
    assert (Hp : pool no_client_world !! id (actor j) = None) by reflexivity.
    assert (Hp' : pool no_client_world
                    !! cred_id (cred_actor_of (sample_creds "alice" "irc.host.net"))
                  = None) by reflexivity.
    assert (Hb : forall h, backend no_client_world (id (actor j)) <> Registered h)
      by (intros h; discriminate).
    exact (proj1 (connect_failure_is_reported Observe j no_client_world _
                    Hs Hp Hp' Hb)).
Defined.

(** X3: when the credential store has nothing for the actor, no verb ever
    calls back: the callback of the store throws on the unbound [promise],
    the job's promise stays pending, and nothing else happens. *)
Theorem missing_credentials_leave_the_job_hanging (v : verb) (j : job) (w : world) :
  store w !! id (actor j) = None ->
  dispatch v j w = snd (emit (Uncaught (ReferenceError (lit "promise"))) w) /\
  callbacks (trace (dispatch v j w)) = callbacks (trace w) /\
  backend_commands (trace (dispatch v j w)) = backend_commands (trace w).
Proof.
  intros Hs.
  assert (Hc : _getClient j None w =
               (Pending, snd (emit (Uncaught (ReferenceError (lit "promise"))) w))).
  { unfold _getClient. rewrite Hs. reflexivity. }
  rewrite (dispatch_pending _ _ _ _ Hc), trace_emit.
  split; [reflexivity |].
  rewrite callbacks_app, backend_commands_app. cbn. rewrite !app_nil_r.
  split; reflexivity.
Qed.

Lemma missing_credentials_leave_the_job_hanging_witness :
  trace (dispatch Send (sample_job "alice" "irc.host.net" "bob" "message" "hi")
           no_credentials_world) =
  [Uncaught (ReferenceError (lit "promise"))].
Proof.
  pose (j := sample_job "alice" "irc.host.net" "bob" "message" "hi").
  assert (Hs : store no_credentials_world !! id (actor j) = None) by reflexivity.
  destruct (missing_credentials_leave_the_job_hanging Send j no_credentials_world Hs)
    as (Hd & _).
  fold j. rewrite Hd. reflexivity.
Defined.

(** ** Reusing the connection *)

(** X4: resolving the connection is idempotent: once [_getClient] has
    fulfilled with a client, asking again in the resulting state gives the
    same client without contacting the backend and without changing
    anything. *)
Theorem resolved_connection_is_reused (j : job) (create : option bool)
    (w w' : world) (c : client) :
  _getClient j create w = (Fulfilled c, w') ->
  _getClient j create w' = (Fulfilled c, w').
Proof.
  unfold _getClient. destruct (store w !! id (actor j)) as [creds|] eqn:Hs.
  - unfold pool_get. destruct (pool w !! id (actor j)) as [e|] eqn:He.
    + cbn [fmap option_fmap option_map]. intros [= <- <-].
      rewrite Hs, He. reflexivity.
    + cbn [fmap option_fmap option_map].
      destruct (default true create) eqn:Hd; [| discriminate].
      unfold _createClient, pool_create.
      destruct (pool w !! cred_id (cred_actor_of creds)) as [e|] eqn:He'.
      * intros [= <- <-]. cbn [set_pool snd store pool backend].
        rewrite Hs, He. cbn [fmap option_fmap option_map]. rewrite He'.
        reflexivity.
      * destruct (backend w (id (actor j))) as [h | |]; try discriminate.
        intros [= <- <-]. cbn [set_pool snd store pool backend]. rewrite Hs.
        destruct (decide (cred_id (cred_actor_of creds) = id (actor j))) as [Heq | Hne].
        -- rewrite <- Heq, lookup_insert_eq. reflexivity.
        -- rewrite lookup_insert_ne by exact Hne. rewrite He.
           cbn [fmap option_fmap option_map]. rewrite lookup_insert_eq.
           cbn [set_pool snd]. reflexivity.
  - rewrite promise_unbound. discriminate.
Qed.

Lemma resolved_connection_is_reused_witness :
  let j := sample_job "alice" "irc.host.net" "bob" "message" "hi" in
  _getClient j None (snd (_getClient j None alice_world)) =
  (Fulfilled alice_client, snd (_getClient j None alice_world)).
Proof.
  intros j.
  exact (resolved_connection_is_reused j None alice_world
           (snd (_getClient j None alice_world)) alice_client eq_refl).
Defined.

(** ** [observe] and the topic branch of [update] *)

(** X5: on a resolved connection [observe] of an [attendance] object sends
    NAMES for the target and calls back with success; for any other object
    type it sends nothing and calls back with an error that quotes the
    object type. *)
Theorem observe_asks_for_names_or_refuses (j : job) (w w' : world) (c : client) :
  _getClient j None w = (Fulfilled c, w') ->
  (objectType (object j) = lit "attendance" ->
     trace (observe j w) =
       trace w ++ [Raw (connection c) [lit "NAMES"; target_displayName (target j)];
                   Done None]) /\
  (objectType (object j) <> lit "attendance" ->
     trace (observe j w) =
       trace w ++
       [Done (Some (EValue (JStr (lit "unknown objectType '"
                                    ++ objectType (object j) ++ lit "'"))))] /\
     backend_commands (trace (observe j w)) = backend_commands (trace w)).
Proof.
  intros Hc. destruct (getClient_fulfilled _ _ _ _ _ Hc) as (Ht & _).
  rewrite (observe_run _ _ _ _ Hc). split.
  - intros ->. change (jstring_eqb (lit "attendance") (lit "attendance")) with true.
    cbv iota. unfold done, raw. rewrite !trace_emit, Ht, <- app_assoc. reflexivity.
  - intros Hne. apply jstring_eqb_neq in Hne. rewrite Hne. unfold done.
    rewrite trace_emit, Ht. split; [reflexivity |].
    rewrite backend_commands_app. cbn. apply app_nil_r.
Qed.

Lemma observe_asks_for_names_or_refuses_witness :
  trace (observe (sample_job "alice" "irc.host.net" "#room" "attendance" "")
           alice_world) =
    [Raw 7%nat [lit "NAMES"; lit "#room"]; Done None] /\
  trace (observe (sample_job "alice" "irc.host.net" "#room" "mood" "")
           alice_world) =
    [Done (Some (EValue (JStr (lit "unknown objectType 'mood'"))))].
Proof.
  split.
  - pose (j := sample_job "alice" "irc.host.net" "#room" "attendance" "").
    destruct (observe_asks_for_names_or_refuses j alice_world
                (snd (_getClient j None alice_world)) alice_client eq_refl)
      as (Hnames & _).
    apply Hnames. reflexivity.
  - pose (j := sample_job "alice" "irc.host.net" "#room" "mood" "").
    destruct (observe_asks_for_names_or_refuses j alice_world
                (snd (_getClient j None alice_world)) alice_client eq_refl)
      as (_ & Hother).
    apply Hother. vm_compute. discriminate.
Defined.

(** X6: on a resolved connection an [update] of a [topic] object sends the
    topic command with the target and the new topic, calls back with
    success, and writes nothing to the credential store or the pool. *)
Theorem update_topic_sends_topic (j : job) (w w' : world) (c : client) :
  _getClient j None w = (Fulfilled c, w') ->
  objectType (object j) = lit "topic" ->
  trace (update j w) =
    trace w ++ [Raw (connection c)
                  [lit "topic"; target_displayName (target j); topic (object j)];
                Done None] /\
  store (update j w) = store w /\
  pool (update j w) = pool w'.
Proof.
  intros Hc Hty. destruct (getClient_fulfilled _ _ _ _ _ Hc) as (Ht & _ & Hst & _).
  rewrite (update_topic_run _ _ _ _ Hc Hty). unfold done, raw.
  rewrite !trace_emit, Ht, <- app_assoc. cbn [emit snd store pool].
  split; [reflexivity |]. split; [exact Hst | reflexivity].
Qed.

Lemma update_topic_sends_topic_witness :
  trace (update (sample_job "alice" "irc.host.net" "#room" "topic" "Release day")
           alice_world) =
  [Raw 7%nat [lit "topic"; lit "#room"; lit "Release day"]; Done None].
Proof.
  pose (j := sample_job "alice" "irc.host.net" "#room" "topic" "Release day").
  exact (proj1 (update_topic_sends_topic j alice_world
                  (snd (_getClient j None alice_world)) alice_client
                  eq_refl eq_refl)).
Defined.

(** ** Who writes the credential store and the pool *)

Lemma emit_store e w : store (snd (emit e w)) = store w.
Proof. reflexivity. Qed.

Lemma emit_pool e w : pool (snd (emit e w)) = pool w.
Proof. reflexivity. Qed.

(** X7: only the rename writes the credential store. Every other job, of
    any verb and in any state, leaves the store as it was, and leaves the
    pool as resolving the connection left it. *)
Theorem only_the_rename_writes_store_and_pool (v : verb) (j : job) (w : world) :
  (v = Update -> objectType (object j) <> lit "address") ->
  store (dispatch v j w) = store w /\
  pool (dispatch v j w) = pool (snd (_getClient j None w)).
Proof.
  intros Hv. rewrite <- (getClient_store j None w).
  destruct (_getClient j None w) as [[c|r|] w'] eqn:Hc; cbn [snd].
  - destruct v; simpl.
    + specialize (Hv eq_refl).
      destruct (decide (objectType (object j) = lit "topic")) as [Hto | Hto].
      * rewrite (update_topic_run _ _ _ _ Hc Hto). unfold done, raw.
        rewrite !emit_store, !emit_pool. split; reflexivity.
      * rewrite (update_other_run _ _ _ _ Hc Hv Hto). unfold done.
        rewrite !emit_store, !emit_pool. split; reflexivity.
    + rewrite (join_run _ _ _ _ Hc), emit_store, emit_pool. split; reflexivity.
    + rewrite (leave_run _ _ _ _ Hc). unfold raw.
      rewrite !emit_store, !emit_pool. split; reflexivity.
    + rewrite (send_run _ _ _ _ Hc). destruct (_ && _); unfold done, raw;
        rewrite !emit_store, !emit_pool; split; reflexivity.
    + rewrite (observe_run _ _ _ _ Hc). destruct (jstring_eqb _ _); unfold done, raw;
        rewrite !emit_store, !emit_pool; split; reflexivity.
  - rewrite (dispatch_rejected _ _ _ _ _ Hc). unfold done.
    rewrite emit_store, emit_pool. split; reflexivity.
  - rewrite (dispatch_pending _ _ _ _ Hc). split; reflexivity.
Qed.

Lemma only_the_rename_writes_store_and_pool_witness :
  let j := sample_job "alice" "irc.host.net" "#room" "topic" "Release day" in
  store (dispatch Update j alice_world) = store alice_world /\
  pool (dispatch Update j alice_world) = pool (snd (_getClient j None alice_world)).
Proof.
  intros j. apply (only_the_rename_writes_store_and_pool Update j alice_world).
  intros _. vm_compute. discriminate.
Defined.

(** ** The trimming of [send] *)

Lemma drop_leading_app_ws (pre rest : jstring) :
  all_ws pre -> drop_leading (pre ++ rest) = drop_leading rest.
Proof.
  unfold all_ws. induction pre as [|c pre IH]; [reflexivity |].
  simpl. intros Hpre. apply andb_true_iff in Hpre as [Hc Hpre].
  rewrite Hc. apply IH, Hpre.
Qed.

Lemma drop_leading_fixed (s : jstring) :
  (forall c, head s = Some c -> is_ws c = false) -> drop_leading s = s.
Proof.
  destruct s as [|c s]; [reflexivity |]. simpl. intros Hhd.
  rewrite (Hhd c eq_refl). reflexivity.
Qed.

Lemma all_ws_app (a b : jstring) : all_ws (a ++ b) <-> all_ws a /\ all_ws b.
Proof. unfold all_ws. rewrite forallb_app. apply andb_true_iff. Qed.

Lemma drop_trailing_app_ws (t post : jstring) :
  all_ws post ->
  (forall c, last t = Some c -> is_ws c = false) ->
  drop_trailing (t ++ post) = t.
Proof.
  intros Hpost. induction t as [|c t IH]; intros Hlast.
  - simpl. apply drop_trailing_nil, Hpost.
  - cbn [app drop_trailing].
    destruct (forallb is_ws (c :: t ++ post)) eqn:Hall.
    + exfalso. change (all_ws ((c :: t) ++ post)) in Hall.
      apply all_ws_app in Hall as [Hct _].
      assert (Hex : exists d, last (c :: t) = Some d).
      { destruct (last (c :: t)) as [d|] eqn:Hl; [eauto |].
        apply last_None in Hl. discriminate. }
      destruct Hex as (d & Hd). pose proof (Hlast d Hd) as Hd'.
      assert (Hin : d ∈ c :: t) by (apply last_Some_elem_of, Hd).
      unfold all_ws in Hct. rewrite forallb_forall in Hct.
      apply list_elem_of_In in Hin. rewrite (Hct d Hin) in Hd'. discriminate.
    + f_equal. apply IH. intros d Hd. apply Hlast.
      destruct t as [|e t]; [discriminate |]. rewrite last_cons_cons. exact Hd.
Qed.

(** X8: the regex replace of [send] computes the trim and nothing else: [t]
    is the content without leading and trailing white space exactly when
    [t] is the result of the replace. So the replace is idempotent, and it
    returns a content that has no white space at either end unchanged. *)
Theorem replace_trim_is_the_trim (s t : jstring) :
  (trimmed_of s t <-> t = replace_trim s) /\
  replace_trim (replace_trim s) = replace_trim s.
Proof.
  assert (Huniq : forall s t, trimmed_of s t -> t = replace_trim s).
  { clear. intros s t (pre & post & -> & Hpre & Hpost & Hhd & Hlast).
    unfold replace_trim. rewrite (drop_leading_app_ws _ _ Hpre).
    destruct t as [|c t].
    - simpl. symmetry. apply drop_trailing_nil.
      destruct (drop_leading_split post) as (pre' & Hp & _ & _).
      rewrite Hp in Hpost. apply all_ws_app in Hpost. tauto.
    - rewrite drop_leading_fixed.
      + symmetry. apply drop_trailing_app_ws; assumption.
      + simpl. intros d [= <-]. apply Hhd. reflexivity. }
  split.
  - split; [apply Huniq | intros ->; apply replace_trim_spec].
  - symmetry. apply Huniq.
    destruct (replace_trim_spec s) as (pre & post & _ & _ & _ & Hhd & Hlast).
    exists [], []. rewrite app_nil_r.
    split; [reflexivity |]. split; [reflexivity |]. split; [reflexivity |].
    split; assumption.
Qed.

(** ** The connection options *)

(** X9: the options the connector builds are complete whatever the
    credentials leave out: TLS is off only when [secure] is literally
    false; without a port (or with port 0) the port is 6697 under TLS and
    6667 otherwise; the server is never empty; the user name is the nick. *)
Theorem connection_options_have_defaults (parseInt : Z -> Z) (creds : credentials) :
  let m := module_creds parseInt creds in
  (mc_secure m = false <-> secure (cred_object_of creds) = Some false) /\
  (port (cred_object_of creds) = None \/ port (cred_object_of creds) = Some 0 ->
     mc_port m = if mc_secure m then 6697 else 6667) /\
  mc_server m <> [] /\
  (server (cred_object_of creds) <> [] ->
     mc_server m = server (cred_object_of creds)) /\
  mc_user m = nick (cred_object_of creds).
Proof.
  intros m. subst m. unfold module_creds, is_secure, or_string. cbn.
  split.
  - destruct (secure (cred_object_of creds)) as [[|]|]; split; congruence.
  - split.
    + intros [-> | ->]; reflexivity.
    + split; [| split; [| reflexivity]].
      * destruct (bool_decide (server (cred_object_of creds) = [])) eqn:Hs; cbn.
        -- vm_compute. discriminate.
        -- apply bool_decide_eq_false in Hs. exact Hs.
      * intros Hne. rewrite bool_decide_eq_false_2 by exact Hne. reflexivity.
Qed.

Lemma connection_options_have_defaults_witness :
  mc_port (module_creds (fun p => p) (sample_creds "alice" "irc.host.net")) = 6697 /\
  mc_server (module_creds (fun p => p) (sample_creds "alice" "")) =
    lit "irc.freenode.net".
Proof.
  destruct (connection_options_have_defaults (fun p => p)
              (sample_creds "alice" "irc.host.net")) as (_ & Hport & _).
  split; [apply Hport; left; reflexivity | reflexivity].
Defined.

End IrcMore.

(** * More facts about the IRC event translator *)

Module ListenerMore.
Import JS IrcListener ListenerFacts.

Lemma listener_as_cascade (object : event) :
  listener object = first_match listener_precedence object.
Proof.
  unfold listener, listener_precedence.
  cbn [first_match test translate].
  repeat cascade.
Qed.

Lemma test_run (s : shape) (object : event) :
  test s object = ([], snd (test s object)).
Proof.
  destruct s; try reflexivity; cbn [test]; unfold and_then, raw_has;
    destruct (typeof_is (channel object) TString); try reflexivity;
    destruct (call_indexOf (raw object) _); reflexivity.
Qed.

(** A message leaves the cascade only through the translation of the first
    shape whose test answers true. *)
Lemma first_match_sends (order : list shape) (object : event) (msg : jsval) :
  msg ∈ fst (first_match order object) ->
  exists pre s post,
    order = pre ++ s :: post /\
    Forall (fun s' => test s' object = ([], Normal false)) pre /\
    test s object = ([], Normal true) /\
    msg ∈ fst (translate s object).
Proof.
  induction order as [|s rest IH]; cbn [first_match].
  - intros Hin. apply elem_of_nil in Hin. destruct Hin.
  - rewrite (test_run s object).
    destruct (snd (test s object)) as [[|]|e] eqn:Ht.
    + change (([], Normal true) ≫= _) with
        (mret (M := Tr jsval) true ≫=
           (fun hit : bool => if hit then translate s object
                              else first_match rest object)).
      rewrite Tr_ret_bind. intros Hin.
      exists [], s, rest. split; [reflexivity |]. split; [constructor |].
      split; [rewrite (test_run s object), Ht; reflexivity | exact Hin].
    + change (([], Normal false) ≫= _) with
        (mret (M := Tr jsval) false ≫=
           (fun hit : bool => if hit then translate s object
                              else first_match rest object)).
      rewrite Tr_ret_bind. intros Hin.
      destruct (IH Hin) as (pre & s' & post & -> & Hpre & Hs' & Hmsg).
      exists (s :: pre), s', post. split; [reflexivity |].
      split; [| split; assumption].
      constructor; [| exact Hpre]. rewrite (test_run s object), Ht. reflexivity.
    + intros Hin. apply elem_of_nil in Hin. destruct Hin.
Qed.

Lemma sent_singleton (m msg : jsval) : msg ∈ fst (send m) -> msg = m.
Proof. intros Hin. apply list_elem_of_singleton in Hin. exact Hin. Qed.

Lemma sent_nothing (msg : jsval) : msg ∈ fst (mret (M := Tr jsval) tt) -> False.
Proof. intros Hin. apply elem_of_nil in Hin. exact Hin. Qed.

(** X10: every message the listener sends has the canonical shape, a verb,
    an actor address, a one-element target list and an object; its verb is
    one of the verbs of the platform's schema; and a [join] or a [send] is
    only ever sent with a truthy actor address, never for an event without
    nickname. *)
Theorem listener_messages_are_canonical (object : event) (msg : jsval) :
  msg ∈ fst (listener object) ->
  exists (v : string) (a t ob : jsval),
    msg = obj [("verb", str v); ("actor", address a);
               ("target", JArr [address t]); ("object", ob)] /\
    v ∈ schema_verbs /\
    (v = "join" \/ v = "send" -> truthy a = true).
Proof.
  rewrite listener_as_cascade. intros Hin.
  destruct (first_match_sends _ _ _ Hin) as (pre & s & post & _ & _ & _ & Hmsg).
  clear Hin.
  destruct s; cbn [translate] in Hmsg;
    try (apply sent_nothing in Hmsg; destruct Hmsg);
    try (destruct (truthy (nickname object)) eqn:Hn;
         [| apply sent_nothing in Hmsg; destruct Hmsg]);
    apply sent_singleton in Hmsg; subst msg;
    do 4 eexists;
    (split; [reflexivity |]);
    (split; [unfold schema_verbs; apply list_elem_of_In; simpl; tauto |]);
    intros [Hv | Hv]; try discriminate Hv; exact Hn.
Qed.

Lemma listener_messages_are_canonical_witness :
  exists (v : string) (a t ob : jsval),
    obj [("verb", str "leave"); ("actor", address (str "bob"));
         ("target", JArr [address (str "")]);
         ("object", obj [("text", str "user has quit")])] =
    obj [("verb", str v); ("actor", address a);
         ("target", JArr [address t]); ("object", ob)] /\
    v ∈ schema_verbs /\
    (v = "join" \/ v = "send" -> truthy a = true).
Proof.
  apply (listener_messages_are_canonical part_event).
  apply list_elem_of_singleton. reflexivity.
Defined.

(** One step down the listener, deciding the tests one property at a time. *)
Ltac descend :=
  first
    [ reflexivity
    | rewrite Tr_ret_bind
    | rewrite Tr_eval_bind
    | rewrite Tr_throw_bind
    | progress cbv beta
    | progress cbn [andb negb call_indexOf has_indexOf]
    | match goal with
      | |- context [snd (if ?a && _ then _ else _)] => destruct a
      | |- context [snd (if ?b then _ else _)] => destruct b
      | |- context [snd ((if ?b then _ else _) ≫= _)] => destruct b
      | |- context [call_indexOf (raw ?o) _] => destruct (raw o)
      end ].

(** X11: the listener throws on exactly the events on which it reads
    [object.raw] and finds neither a string nor an array there; on every
    other event, in particular on every event whose [raw] is a string, it
    returns normally. When it throws it has sent nothing. *)
Theorem listener_throws_only_on_unreadable_raw (object : event) :
  is_normal (snd (listener object)) =
    negb (reads_raw object && negb (has_indexOf (raw object))) /\
  (is_normal (snd (listener object)) = true \/ fst (listener object) = []).
Proof.
  split.
  - unfold listener, reads_raw, and_then, raw_has. repeat descend.
  - unfold listener, and_then, raw_has.
    repeat first
      [ solve [left; reflexivity]
      | solve [right; reflexivity]
      | rewrite Tr_ret_bind
      | rewrite Tr_eval_bind
      | rewrite Tr_throw_bind
      | progress cbv beta
      | match goal with
        | |- context [snd (if ?b then _ else _)] => destruct b
        | |- context [snd ((if ?b then _ else _) ≫= _)] => destruct b
        | |- context [call_indexOf ?v ?s] => destruct (call_indexOf v s)
        end ].
Qed.

Lemma test_quit_true (object : event) :
  typeof_is (nickname object) TString = true ->
  typeof_is (target object) TUndefined = true ->
  test Quit object = ([], Normal true).
Proof. intros Hn Ht. cbn [test]. rewrite Hn, Ht. reflexivity. Qed.

(** X12: for an event with a string nickname and no target the listener
    never sends the part message ("user has left the channel"): the quit
    test is made before the part test and matches every such event. *)
Theorem named_part_without_target_is_not_reported_as_part
    (object : event) (msg : jsval) :
  typeof_is (nickname object) TString = true ->
  typeof_is (target object) TUndefined = true ->
  msg ∈ fst (listener object) ->
  text_of msg <> str "user has left the channel".
Proof.
  intros Hn Ht. rewrite listener_as_cascade. intros Hin.
  destruct (first_match_sends _ _ _ Hin)
    as (pre & s & post & Hord & Hpre & Htest & Hmsg).
  clear Hin.
  destruct s; cbn [translate] in Hmsg;
    try (apply sent_nothing in Hmsg; destruct Hmsg);
    try (destruct (truthy (nickname object)) eqn:Htr;
         [| apply sent_nothing in Hmsg; destruct Hmsg]);
    apply sent_singleton in Hmsg; subst msg;
    try (vm_compute; discriminate).
  - (* a message needs a string target *)
    exfalso. cbn [test] in Htest.
    assert (Hs : typeof_is (target object) TString = false).
    { destruct (target object); try reflexivity; discriminate Ht. }
    rewrite Hs in Htest. discriminate Htest.
  - (* the part shape: the quit test stands before it in the order *)
    exfalso. unfold listener_precedence in Hord.
    assert (Hq : Quit ∈ pre).
    { do 9 (destruct pre as [|? pre];
            [simpl in Hord; discriminate Hord
            | simpl in Hord; injection Hord as <- Hord]).
      destruct pre as [|? pre].
      - apply list_elem_of_In. simpl. tauto.
      - simpl in Hord. injection Hord as _ Hord.
        destruct pre; discriminate Hord. }
    rewrite Forall_forall in Hpre. specialize (Hpre Quit Hq).
    rewrite (test_quit_true object Hn Ht) in Hpre. discriminate Hpre.
Qed.

Lemma named_part_without_target_is_not_reported_as_part_witness :
  fst (listener part_event) =
    [obj [("verb", str "leave"); ("actor", address (str "bob"));
          ("target", JArr [address (str "")]);
          ("object", obj [("text", str "user has quit")])]] /\
  text_of (obj [("verb", str "leave"); ("actor", address (str "bob"));
                ("target", JArr [address (str "")]);
                ("object", obj [("text", str "user has quit")])])
    <> str "user has left the channel".
Proof.
  split; [reflexivity |].
  apply (named_part_without_target_is_not_reported_as_part part_event);
    [reflexivity | reflexivity |].
  apply list_elem_of_singleton. reflexivity.
Defined.

End ListenerMore.

(** * More facts about the XMPP handlers *)

Module XmppMore.
Import JS Xmpp XmppFacts.

(** ** Observing runs *)

Lemma obs_ret {A} (a : A) : obs (mret (M := Tr call) a) = ([], Normal a).
Proof. reflexivity. Qed.

Lemma obs_eval {A} (c : completion A) : obs (eval (E := call) c) = ([], c).
Proof. reflexivity. Qed.

Lemma obs_bind {A B} (m : Tr call A) (f : A -> Tr call B) :
  obs (m ≫= f) =
  match snd (obs m) with
  | Normal a => (fst (obs m) ++ fst (obs (f a)), snd (obs (f a)))
  | Throw e => (fst (obs m), Throw e)
  end.
Proof.
  unfold obs, mbind, Tr_bind. destruct m as [t [a|e]]; cbn [fst snd].
  - destruct (f a) as [t' r]. cbn [fst snd]. rewrite sent_app. reflexivity.
  - reflexivity.
Qed.

Lemma obs_debug (s : session) (msg : jsval) :
  obs (guard_debug s msg) = ([], Normal tt).
Proof.
  unfold obs, guard_debug, checkScope. destruct (bool_decide _); reflexivity.
Qed.

Lemma obs_sendToClient (s : session) (msg : jsval) :
  obs (guard_sendToClient s msg) = (delivered s [msg], Normal tt).
Proof.
  unfold obs, guard_sendToClient, checkScope, delivered.
  change (session_property s (lit "sendToClient")) with (sendToClient s).
  destruct (bool_decide _); reflexivity.
Qed.

Lemma delivered_app (s : session) (a b : list jsval) :
  delivered s (a ++ b) = delivered s a ++ delivered s b.
Proof. unfold delivered. destruct (bool_decide _); reflexivity. Qed.

Lemma delivered_nil (s : session) : delivered s [] = [].
Proof. unfold delivered. destruct (bool_decide _); reflexivity. Qed.

(** One step of observing a handler that talks through the guard. *)
Ltac observe :=
  first
    [ rewrite obs_bind
    | rewrite obs_debug
    | rewrite obs_sendToClient
    | rewrite obs_eval
    | progress cbn [fst snd app] ].

(** ** [close], [error], [online] *)

(** X13: [close] tells the client that the connection closed, once, with
    the session's actor as actor and as target, if the session can still
    be told; and it always ends in a TypeError instead of disconnecting,
    because the guard has no [connection]: when the actor is missing the
    error comes even earlier, from reading its [@id]. *)
Theorem close_notifies_then_throws (g : guard) (s : session) :
  obs (close g s) =
  (delivered s [close_message g],
   Throw (TypeError (lit "Cannot read property of undefined"))).
Proof.
  unfold close. rewrite obs_bind, obs_debug. cbn [fst snd app].
  rewrite obs_bind, obs_sendToClient. cbn [fst snd].
  rewrite obs_bind, obs_eval. cbn [fst snd].
  destruct (get_prop (guard_actor g) (lit "@id")) as [aid|e] eqn:Hid.
  - rewrite obs_bind, obs_debug. cbn [fst snd]. rewrite obs_eval.
    cbn [fst snd]. rewrite !app_nil_r. reflexivity.
  - rewrite app_nil_r. f_equal. f_equal.
    destruct (guard_actor g); try discriminate Hid; injection Hid as <-; reflexivity.
Qed.

(** X14: [error] never throws, whatever the error value and the state of
    the session: it forwards the error to the client as one error message
    if the session can still be told, and returns. *)
Theorem error_forwards_and_never_throws (g : guard) (s : session) (e : jsval) :
  obs (error g s e) = (delivered s [error_message e], Normal tt).
Proof.
  unfold error, try_catch.
  destruct (_ ≫= _) as [t r] eqn:Hbody.
  assert (Hobs : obs (t, r) = (delivered s [error_message e], Normal tt)).
  { rewrite <- Hbody, obs_bind, obs_debug. cbn [fst snd app].
    apply obs_sendToClient. }
  unfold obs in Hobs. cbn [fst snd] in Hobs. injection Hobs as Hs Hr.
  subst r. unfold obs. cbn [fst snd]. rewrite Hs. reflexivity.
Qed.

(** X15: [online] never sends anything to the client; it returns normally
    exactly when the session had an actor at the time the guard was built
    (neither undefined nor null). *)
Theorem online_only_logs (g : guard) (s : session) :
  fst (obs (online g s)) = [] /\
  is_normal (snd (obs (online g s))) =
    match guard_actor g with JUndef | JNull => false | _ => true end.
Proof.
  unfold online. rewrite obs_bind, obs_debug. cbn [fst snd app].
  rewrite obs_bind, obs_eval. cbn [fst snd app].
  destruct (guard_actor g); cbn [get_prop]; rewrite ?obs_debug; split; reflexivity.
Qed.

(** ** Roster results *)

Section RosterFacts.
Context {E : Type} `{Stanza E}.
Variable roomAttendance : guard -> session -> E -> Tr call unit.

Lemma obs_roster_entry (g : guard) (s : session) (entry : E) :
  obs (roster_entry g s entry) =
  if is_mutual entry
  then ([], Throw (ReferenceError (lit "state")))
  else (delivered s [entry_message g entry], Normal tt).
Proof.
  unfold roster_entry, is_mutual, entry_message.
  rewrite obs_bind, obs_debug. cbn [fst snd app].
  destruct (attr_is entry "subscription" "both").
  - rewrite obs_bind, obs_eval. reflexivity.
  - destruct (_ && _); apply obs_sendToClient.
Qed.

Lemma obs_for_in_roster (g : guard) (s : session) (entries : list E) :
  obs (for_in entries (roster_entry g s)) =
  (delivered s (map (entry_message g) (before_mutual entries)),
   if forallb (fun e => negb (is_mutual e)) entries
   then Normal tt else Throw (ReferenceError (lit "state"))).
Proof.
  induction entries as [|e rest IH].
  - cbn. rewrite delivered_nil. reflexivity.
  - cbn [for_in before_mutual forallb]. rewrite obs_bind, obs_roster_entry.
    destruct (is_mutual e); cbn [fst snd negb andb map].
    + rewrite delivered_nil. reflexivity.
    + rewrite IH. cbn [fst snd].
      change (entry_message g e :: map (entry_message g) (before_mutual rest))
        with ([entry_message g e] ++ map (entry_message g) (before_mutual rest)).
      rewrite delivered_app. reflexivity.
Qed.

Lemma obs_stanza_roster (g : guard) (s : session) (stanza query : E) :
  attr_is stanza "type" "error" = false ->
  is_ stanza (lit "iq") = true ->
  attr_is stanza "id" "muc_id" && attr_is stanza "type" "result" = false ->
  getChild stanza (lit "query") = Some query ->
  obs (__stanza roomAttendance g s stanza) =
  obs (for_in (getChildren query (lit "item")) (roster_entry g s)).
Proof.
  intros Herr Hiq Hmuc Hq. unfold __stanza.
  rewrite Herr, Hiq, Hmuc, Hq. reflexivity.
Qed.

(** X16: a roster result without mutual contacts is translated entry by
    entry, in order: exactly one message per item reaches the client (a
    [notauthorized] presence for a pending subscription request, a
    [request-friend] otherwise), and the handler returns normally. *)
Theorem roster_is_translated_item_by_item
    (g : guard) (s : session) (stanza query : E) :
  attr_is stanza "type" "error" = false ->
  is_ stanza (lit "iq") = true ->
  attr_is stanza "id" "muc_id" && attr_is stanza "type" "result" = false ->
  getChild stanza (lit "query") = Some query ->
  forallb (fun e => negb (is_mutual e)) (getChildren query (lit "item")) = true ->
  obs (__stanza roomAttendance g s stanza) =
  (delivered s (map (entry_message g) (getChildren query (lit "item"))),
   Normal tt).
Proof.
  intros Herr Hiq Hmuc Hq Hplain.
  rewrite (obs_stanza_roster _ _ _ _ Herr Hiq Hmuc Hq), obs_for_in_roster, Hplain.
  f_equal. f_equal. f_equal.
  induction (getChildren query (lit "item")) as [|e rest IH]; [reflexivity |].
  cbn [forallb] in Hplain. apply andb_true_iff in Hplain as [He Hrest].
  cbn [before_mutual]. apply negb_true_iff in He. rewrite He.
  f_equal. apply IH, Hrest.
Qed.

(** X17: the first mutual contact of a roster result ends the translation:
    the entries before it are delivered, the mutual contact and every
    entry after it are not, and the handler throws a ReferenceError. *)
Theorem roster_stops_at_first_mutual_contact
    (g : guard) (s : session) (stanza query : E) (pre post : list E) (m : E) :
  attr_is stanza "type" "error" = false ->
  is_ stanza (lit "iq") = true ->
  attr_is stanza "id" "muc_id" && attr_is stanza "type" "result" = false ->
  getChild stanza (lit "query") = Some query ->
  getChildren query (lit "item") = pre ++ m :: post ->
  forallb (fun e => negb (is_mutual e)) pre = true ->
  is_mutual m = true ->
  obs (__stanza roomAttendance g s stanza) =
  (delivered s (map (entry_message g) pre),
   Throw (ReferenceError (lit "state"))).
Proof.
  intros Herr Hiq Hmuc Hq Hitems Hpre Hm.
  rewrite (obs_stanza_roster _ _ _ _ Herr Hiq Hmuc Hq), obs_for_in_roster, Hitems.
  assert (Hbefore : before_mutual (pre ++ m :: post) = pre).
  { clear Hitems. induction pre as [|e pre IH]; cbn [app before_mutual].
    - rewrite Hm. reflexivity.
    - cbn [forallb] in Hpre. apply andb_true_iff in Hpre as [He Hrest].
      apply negb_true_iff in He. rewrite He. f_equal. apply IH, Hrest. }
  rewrite Hbefore, forallb_app. cbn [forallb]. rewrite Hm.
  cbn [negb andb]. rewrite andb_false_r. reflexivity.
Qed.

(** ** Losing [debug] loses no message *)

(** X18: what reaches the client and how a handler completes depend on the
    session only through [sendToClient]: two sessions that agree on it,
    whatever became of [debug], see the same messages and the same
    completion from [close], [error], [online] and [__stanza]. *)
Theorem handlers_do_not_depend_on_debug (g : guard) (s1 s2 : session) :
  sendToClient s1 = sendToClient s2 ->
  obs (close g s1) = obs (close g s2) /\
  (forall e, obs (error g s1 e) = obs (error g s2 e)) /\
  obs (online g s1) = obs (online g s2) /\
  (forall stanza,
     obs (roomAttendance g s1 stanza) = obs (roomAttendance g s2 stanza) ->
     obs (__stanza roomAttendance g s1 stanza) =
     obs (__stanza roomAttendance g s2 stanza)).
Proof.
  intros Hsame.
  assert (Hd : forall msgs, delivered s1 msgs = delivered s2 msgs).
  { intros msgs. unfold delivered. rewrite Hsame. reflexivity. }
  split.
  { unfold close. repeat observe. rewrite Hd.
    destruct (get_prop (guard_actor g) (lit "@id")); repeat observe; reflexivity. }
  split.
  { intros e. unfold error, try_catch.
    destruct (guard_debug s1 _ ≫= _) as [t1 r1] eqn:H1.
    destruct (guard_debug s2 _ ≫= _) as [t2 r2] eqn:H2.
    assert (Hb : obs (t1, r1) = obs (t2, r2)).
    { rewrite <- H1, <- H2. repeat observe. rewrite Hd. reflexivity. }
    assert (Hn : r1 = Normal tt).
    { change r1 with (snd (obs (t1, r1))). rewrite <- H1. repeat observe.
      reflexivity. }
    unfold obs in Hb. cbn [fst snd] in Hb. injection Hb as Ht Hr.
    subst r2 r1. unfold obs. cbn [fst snd]. rewrite Ht. reflexivity. }
  split.
  { unfold online. repeat observe.
    destruct (get_prop (guard_actor g) (lit "@id")); repeat observe; reflexivity. }
  intros stanza Hra. unfold __stanza.
  destruct (attr_is stanza "type" "error").
  - destruct (error_type_and_message stanza). repeat observe.
    rewrite Hd. reflexivity.
  - destruct (is_ stanza (lit "iq")); [| reflexivity].
    destruct (_ && _).
    + repeat observe. rewrite Hra. reflexivity.
    + destruct (getChild stanza (lit "query")); [| reflexivity].
      rewrite !obs_for_in_roster, Hd. reflexivity.
Qed.

End RosterFacts.

Lemma roster_is_translated_item_by_item_witness :
  obs (__stanza roomAttendance_undefined sample_guard sample_session roster_two) =
  ([obj [("@type", str "request-friend");
         ("actor", obj [("@id", str "bob@jabber.net"); ("displayName", JUndef)]);
         ("target", obj [("@id", str "alice@jabber.net")])];
    obj [("@type", str "request-friend");
         ("actor", obj [("@id", str "carol@jabber.net"); ("displayName", JUndef)]);
         ("target", obj [("@id", str "alice@jabber.net")])]],
   Normal tt).
Proof.
  assert (Hq : getChild roster_two (lit "query") =
               Some (el "query" [("xmlns", "jabber:iq:roster")]
                       [ el "item" [("jid", "bob@jabber.net");
                                    ("subscription", "none")] [];
                         el "item" [("jid", "carol@jabber.net");
                                    ("subscription", "none")] [] ]))
    by reflexivity.
  assert (Herr : attr_is roster_two "type" "error" = false) by reflexivity.
  assert (Hiq : is_ roster_two (lit "iq") = true) by reflexivity.
  assert (Hmuc : attr_is roster_two "id" "muc_id"
                 && attr_is roster_two "type" "result" = false) by reflexivity.
  rewrite (roster_is_translated_item_by_item roomAttendance_undefined
             sample_guard sample_session roster_two _ Herr Hiq Hmuc Hq);
    reflexivity.
Defined.

Lemma roster_stops_at_first_mutual_contact_witness :
  obs (__stanza roomAttendance_undefined sample_guard sample_session roster_mixed) =
  ([obj [("@type", str "request-friend");
         ("actor", obj [("@id", str "bob@jabber.net"); ("displayName", JUndef)]);
         ("target", obj [("@id", str "alice@jabber.net")])]],
   Throw (ReferenceError (lit "state"))).
Proof.
  assert (Hq : getChild roster_mixed (lit "query") =
               Some (el "query" [("xmlns", "jabber:iq:roster")]
                       [ el "item" [("jid", "bob@jabber.net");
                                    ("subscription", "none")] [];
                         el "item" [("jid", "carol@jabber.net");
                                    ("subscription", "both")] [];
                         el "item" [("jid", "dave@jabber.net");
                                    ("subscription", "none")] [] ]))
    by reflexivity.
  assert (Herr : attr_is roster_mixed "type" "error" = false) by reflexivity.
  assert (Hiq : is_ roster_mixed (lit "iq") = true) by reflexivity.
  assert (Hmuc : attr_is roster_mixed "id" "muc_id"
                 && attr_is roster_mixed "type" "result" = false) by reflexivity.
  rewrite (roster_stops_at_first_mutual_contact roomAttendance_undefined
             sample_guard sample_session roster_mixed _
             [el "item" [("jid", "bob@jabber.net"); ("subscription", "none")] []]
             [el "item" [("jid", "dave@jabber.net"); ("subscription", "none")] []]
             (el "item" [("jid", "carol@jabber.net"); ("subscription", "both")] [])
             Herr Hiq Hmuc Hq);
    reflexivity.
Defined.

Lemma handlers_do_not_depend_on_debug_witness :
  obs (close sample_guard quiet_session) = obs (close sample_guard sample_session) /\
  obs (__stanza roomAttendance_undefined sample_guard quiet_session roster_two) =
  obs (__stanza roomAttendance_undefined sample_guard sample_session roster_two).
Proof.
  assert (Hsame : sendToClient quiet_session = sendToClient sample_session)
    by reflexivity.
  destruct (handlers_do_not_depend_on_debug roomAttendance_undefined sample_guard
              quiet_session sample_session Hsame) as (Hclose & _ & _ & Hstanza).
  split; [exact Hclose |]. apply Hstanza. reflexivity.
Defined.

(** ** [nextId] *)

Lemma nextIds_from (k : nat) (c : Z) :
  0 <= c -> c + Z.of_nat k <= max_exact ->
  nextIds k c = (map (fun i => c + Z.of_nat i) (seq 1 k), c + Z.of_nat k).
Proof.
  revert c. induction k as [|k IH]; intros c Hc Hk.
  - cbn. f_equal. lia.
  - cbn [nextIds]. unfold nextId, increment.
    assert (Hlt : (c <? max_exact) = true) by (apply Z.ltb_lt; lia).
    rewrite Hlt, (IH (c + 1)) by lia.
    cbn [seq map]. f_equal; try lia. f_equal; try lia.
    rewrite <- (seq_shift k 1), map_map. apply map_ext. intros i. lia.
Qed.

(** X19: [nextId] hands out 1, 2, 3, ... in order: the first [k] ids are
    exactly the integers from 1 to [k], hence pairwise distinct, as long as
    [k] is at most 2^53; there the counter stops growing and the id
    repeats. *)
Theorem nextId_counts_from_one (k : nat) :
  Z.of_nat k <= max_exact ->
  nextIds k 0 = (map Z.of_nat (seq 1 k), Z.of_nat k) /\
  NoDup (fst (nextIds k 0)) /\
  nextId max_exact = (max_exact, max_exact).
Proof.
  intros Hk.
  assert (Hrun : nextIds k 0 = (map Z.of_nat (seq 1 k), Z.of_nat k)).
  { rewrite nextIds_from by lia. f_equal. }
  split; [exact Hrun |]. split; [| reflexivity].
  rewrite Hrun. cbn [fst].
  change (NoDup (Z.of_nat <$> seq 1 k)).
  apply (NoDup_fmap_2 Z.of_nat), NoDup_seq.
Qed.

Lemma nextId_counts_from_one_witness :
  fst (nextIds 3 0) = [1; 2; 3].
Proof.
  assert (Hk : Z.of_nat 3 <= max_exact) by (vm_compute; discriminate).
  destruct (nextId_counts_from_one 3 Hk) as (Hrun & _).
  rewrite Hrun. reflexivity.
Defined.

End XmppMore.
